(** * Duplicate-along-edge node (nodes/modifier_change/objects_along_edge.py)

    A shallow embedding of the transform engine of [SvDuplicateAlongEdgeNode]:
    [householder], [autorotate], [diameter], the count functions,
    [duplicate_vertices] and the accumulation loop of [process].

    Python floats (and the components of mathutils vectors and matrices) are
    idealised as real numbers: rounding, infinities and NaN are not modelled.
    Python exceptions are modelled by the [result] type. *)

From Stdlib Require Import Reals Lra Lia ZArith List Bool RNsatz ListSet.
From Stdlib Require String.
Import ListNotations.

#[local] Open Scope R_scope.

(* ================================================================== *)
(** ** Exceptions *)

Inductive exn : Type :=
| ZeroDivisionError   (* float division by zero *)
| ValueError          (* max()/min() of an empty list, singular matrix, bad linspace size *)
| IndexError          (* sequence index out of range *)
| AssertionError      (* a failed assert *)
| EmptyInputError.    (* named by the specification of the broadcast aligner *)

Inductive result (A : Type) : Type :=
| Ok (a : A)
| Raise (e : exn).

Arguments Ok {A} a.
Arguments Raise {A} e.

Definition bind {A B : Type} (r : result A) (k : A -> result B) : result B :=
  match r with
  | Ok a => k a
  | Raise e => Raise e
  end.

Notation "x <- e1 ;; e2" := (bind e1 (fun x => e2))
  (at level 61, e1 at next level, right associativity).

(** Python's [a / b] on floats. *)
Definition float_div (a b : R) : result R :=
  if Req_dec_T b 0 then Raise ZeroDivisionError else Ok (a / b).

(** Python's [lst[i]]. *)
Definition getitem {A : Type} (l : list A) (i : nat) : result A :=
  match nth_error l i with
  | Some a => Ok a
  | None => Raise IndexError
  end.

(** Python's [max(xs)] and [min(xs)] on a list of floats. *)
Definition py_max (xs : list R) : result R :=
  match xs with
  | [] => Raise ValueError
  | x :: rest => Ok (fold_left Rmax rest x)
  end.

Definition py_min (xs : list R) : result R :=
  match xs with
  | [] => Raise ValueError
  | x :: rest => Ok (fold_left Rmin rest x)
  end.

(** [mapM] for list comprehensions whose body may raise. *)
Fixpoint mapM {A B : Type} (f : A -> result B) (l : list A) : result (list B) :=
  match l with
  | [] => Ok []
  | a :: l' => b <- f a ;; bs <- mapM f l' ;; Ok (b :: bs)
  end.

(* ================================================================== *)
(** ** mathutils: vectors and 4x4 matrices

    mathutils and numpy are libraries outside the repository; the operations
    the node calls are written after their documented behaviour. *)

Module Mathutils.

Record Vector : Type := mkVector { vx : R; vy : R; vz : R }.

(** [v[i]] *)
Definition Vector_getitem (v : Vector) (i : nat) : result R :=
  getitem [vx v; vy v; vz v] i.

Definition vadd (a b : Vector) : Vector :=
  mkVector (vx a + vx b) (vy a + vy b) (vz a + vz b).

Definition vsub (a b : Vector) : Vector :=
  mkVector (vx a - vx b) (vy a - vy b) (vz a - vz b).

(** [s * v] and [v * s] for a float [s]. *)
Definition vscale (s : R) (v : Vector) : Vector :=
  mkVector (s * vx v) (s * vy v) (s * vz v).

Definition dot (a b : Vector) : R :=
  vx a * vx b + vy a * vy b + vz a * vz b.

(** [v.length] *)
Definition Vector_length (v : Vector) : R := sqrt (dot v v).

Definition zero_vector : Vector := mkVector 0 0 0.

(** [v.normalized()]: a vector of length zero is returned as the zero
    vector, nothing is raised. *)
Definition normalized (v : Vector) : Vector :=
  if Req_dec_T (Vector_length v) 0 then zero_vector
  else vscale (/ Vector_length v) v.

Record Row : Type := mkRow { c0 : R; c1 : R; c2 : R; c3 : R }.
Record Matrix : Type := mkMatrix { r0 : Row; r1 : Row; r2 : Row; r3 : Row }.

(** [Matrix()] is the 4x4 identity. *)
Definition identity : Matrix :=
  mkMatrix (mkRow 1 0 0 0) (mkRow 0 1 0 0) (mkRow 0 0 1 0) (mkRow 0 0 0 1).

Definition row_map2 (f : R -> R -> R) (a b : Row) : Row :=
  mkRow (f (c0 a) (c0 b)) (f (c1 a) (c1 b)) (f (c2 a) (c2 b)) (f (c3 a) (c3 b)).

Definition row_scale (s : R) (a : Row) : Row :=
  mkRow (s * c0 a) (s * c1 a) (s * c2 a) (s * c3 a).

(** [a - b] *)
Definition msub (a b : Matrix) : Matrix :=
  mkMatrix (row_map2 Rminus (r0 a) (r0 b)) (row_map2 Rminus (r1 a) (r1 b))
           (row_map2 Rminus (r2 a) (r2 b)) (row_map2 Rminus (r3 a) (r3 b)).

(** [s * m] for a float [s]. *)
Definition mscale (s : R) (m : Matrix) : Matrix :=
  mkMatrix (row_scale s (r0 m)) (row_scale s (r1 m))
           (row_scale s (r2 m)) (row_scale s (r3 m)).

(** One row of a matrix product: the row vector [a] times the matrix [b]. *)
Definition row_mul (a : Row) (b : Matrix) : Row :=
  mkRow (c0 a * c0 (r0 b) + c1 a * c0 (r1 b) + c2 a * c0 (r2 b) + c3 a * c0 (r3 b))
        (c0 a * c1 (r0 b) + c1 a * c1 (r1 b) + c2 a * c1 (r2 b) + c3 a * c1 (r3 b))
        (c0 a * c2 (r0 b) + c1 a * c2 (r1 b) + c2 a * c2 (r2 b) + c3 a * c2 (r3 b))
        (c0 a * c3 (r0 b) + c1 a * c3 (r1 b) + c2 a * c3 (r2 b) + c3 a * c3 (r3 b)).

(** [a * b] on matrices. *)
Definition mmul (a b : Matrix) : Matrix :=
  mkMatrix (row_mul (r0 a) b) (row_mul (r1 a) b) (row_mul (r2 a) b) (row_mul (r3 a) b).

(** [m * v] for a 4x4 matrix and a 3D vector: the vector is extended by a
    fourth component 1 and the first three components are returned. *)
Definition row_apply (a : Row) (v : Vector) : R :=
  c0 a * vx v + c1 a * vy v + c2 a * vz v + c3 a.

Definition mul_vec (m : Matrix) (v : Vector) : Vector :=
  mkVector (row_apply (r0 m) v) (row_apply (r1 m) v) (row_apply (r2 m) v).

(** [Matrix.Translation(o)] *)
Definition Translation (o : Vector) : Matrix :=
  mkMatrix (mkRow 1 0 0 (vx o)) (mkRow 0 1 0 (vy o)) (mkRow 0 0 1 (vz o)) (mkRow 0 0 0 1).

(** [Matrix.Scale(factor, 4)] *)
Definition Scale (factor : R) : Matrix :=
  mkMatrix (mkRow factor 0 0 0) (mkRow 0 factor 0 0) (mkRow 0 0 factor 0) (mkRow 0 0 0 1).

(** [Matrix.Scale(factor, 4, axis)]: scaling along the direction [axis],
    which the library first divides by its norm. *)
Definition Scale_axis (factor : R) (axis : Vector) : Matrix :=
  let norm := Vector_length axis in
  let tx := vx axis / norm in
  let ty := vy axis / norm in
  let tz := vz axis / norm in
  mkMatrix
    (mkRow (1 + (factor - 1) * (tx * tx)) ((factor - 1) * (tx * ty)) ((factor - 1) * (tx * tz)) 0)
    (mkRow ((factor - 1) * (tx * ty)) (1 + (factor - 1) * (ty * ty)) ((factor - 1) * (ty * tz)) 0)
    (mkRow ((factor - 1) * (tx * tz)) ((factor - 1) * (ty * tz)) (1 + (factor - 1) * (tz * tz)) 0)
    (mkRow 0 0 0 1).

(** Entry [m[i][j]], and the index map that skips row or column [k]. *)
Definition row_entry (a : Row) (j : nat) : R :=
  match j with
  | O => c0 a
  | 1%nat => c1 a
  | 2%nat => c2 a
  | _ => c3 a
  end.

Definition entry (m : Matrix) (i j : nat) : R :=
  match i with
  | O => row_entry (r0 m) j
  | 1%nat => row_entry (r1 m) j
  | 2%nat => row_entry (r2 m) j
  | _ => row_entry (r3 m) j
  end.

Definition skip (k n : nat) : nat := if Nat.ltb n k then n else S n.

Definition det3 (a b c d e f g h i : R) : R :=
  a * (e * i - f * h) - b * (d * i - f * g) + c * (d * h - e * g).

(** Determinant of the 3x3 matrix left when row [i] and column [j] go. *)
Definition minor (m : Matrix) (i j : nat) : R :=
  det3 (entry m (skip i 0) (skip j 0)) (entry m (skip i 0) (skip j 1)) (entry m (skip i 0) (skip j 2))
       (entry m (skip i 1) (skip j 0)) (entry m (skip i 1) (skip j 1)) (entry m (skip i 1) (skip j 2))
       (entry m (skip i 2) (skip j 0)) (entry m (skip i 2) (skip j 1)) (entry m (skip i 2) (skip j 2)).

Definition sign (n : nat) : R := if Nat.even n then 1 else -1.

Definition cofactor (m : Matrix) (i j : nat) : R := sign (i + j) * minor m i j.

(** [m.determinant()], by expansion along the first row. *)
Definition determinant (m : Matrix) : R :=
  entry m 0 0 * cofactor m 0 0 + entry m 0 1 * cofactor m 0 1
  + entry m 0 2 * cofactor m 0 2 + entry m 0 3 * cofactor m 0 3.

(** The classical adjoint: the transpose of the cofactor matrix. *)
Definition adjugate (m : Matrix) : Matrix :=
  mkMatrix
    (mkRow (cofactor m 0 0) (cofactor m 1 0) (cofactor m 2 0) (cofactor m 3 0))
    (mkRow (cofactor m 0 1) (cofactor m 1 1) (cofactor m 2 1) (cofactor m 3 1))
    (mkRow (cofactor m 0 2) (cofactor m 1 2) (cofactor m 2 2) (cofactor m 3 2))
    (mkRow (cofactor m 0 3) (cofactor m 1 3) (cofactor m 2 3) (cofactor m 3 3)).

(** [m.inverted()]: adjoint over determinant; a singular matrix raises
    ValueError. *)
Definition inverted (m : Matrix) : result Matrix :=
  if Req_dec_T (determinant m) 0 then Raise ValueError
  else Ok (mscale (/ determinant m) (adjugate m)).

End Mathutils.

(* ================================================================== *)
(** ** numpy *)

Module Numpy.

(** [np.linspace(start, stop, num)]: [num] evenly spaced samples, the last
    one set to [stop]; a negative [num] raises ValueError. *)
Definition linspace (start stop : R) (num : Z) : result (list R) :=
  if (num <? 0)%Z then Raise ValueError
  else
    let n := Z.to_nat num in
    let div := (n - 1)%nat in
    let step := (stop - start) / INR div in
    let y := map (fun k => INR k * step + start) (seq 0 n) in
    Ok (if (1 <? n)%nat then removelast y ++ [stop] else y).

End Numpy.

(* ================================================================== *)
(** ** sverchok.data_structure *)

(** Modelled from the spec: [match_long_repeat] lives in
    sverchok/data_structure.py, which is not among the sources.  Following
    the Broadcast Aligner contract, a sequence of length [L >= 1] is brought
    to length [max_l] with [input[min(p, L - 1)]] at position [p], and an
    empty sequence fails with EmptyInputError. *)
Definition align_to {A : Type} (max_l : nat) (l : list A) : result (list A) :=
  match l with
  | [] => Raise EmptyInputError
  | a :: _ => Ok (map (fun p => nth (Nat.min p (List.length l - 1)) l a) (seq 0 max_l))
  end.

Definition max_length {A : Type} (lsts : list (list A)) : nat :=
  fold_right Nat.max 0%nat (map (@List.length A) lsts).

(** Modelled from the spec: the Broadcast Aligner on K sequences. *)
Definition match_long_repeat {A : Type} (lsts : list (list A)) : result (list (list A)) :=
  mapM (align_to (max_length lsts)) lsts.

(* ================================================================== *)
(** ** objects_along_edge.py *)

Import Mathutils.

(** [h = Matrix() - 2*m] *)
Definition householder (u : Vector) : Matrix :=
  let x := vx u in
  let y := vy u in
  let z := vz u in
  let m := mkMatrix (mkRow (x*x) (x*y) (x*z) 0) (mkRow (x*y) (y*y) (y*z) 0)
                    (mkRow (x*z) (y*z) (z*z) 0) (mkRow 0 0 0 0) in
  msub identity (mscale 2 m).

Definition autorotate (e1 xx : Vector) : Matrix :=
  let alpha := Vector_length xx in
  let u := vsub xx (vscale alpha e1) in
  let v := normalized u in
  householder v.

Definition diameter (vertices : list Vector) (axis : nat) : result R :=
  xs <- mapM (fun vertex => Vector_getitem vertex axis) vertices ;;
  M <- py_max xs ;;
  m <- py_min xs ;;
  Ok (M - m).

Definition all_axes : list Vector :=
  [mkVector 1 0 0; mkVector 0 1 0; mkVector 0 0 1].

(** The entries of [count_modes], [axes] and [input_modes]. *)
Inductive CountMode : Type := mode_count | mode_up | mode_down | mode_off.
Inductive AxisSelector : Type := axis_X | axis_Y | axis_Z.

(** The properties of the node that the engine reads. *)
Record Node : Type := mkNode {
  count_mode : CountMode;
  orient_axis_ : AxisSelector;
  scale_all : bool;
  apply_matrices : bool
}.

Definition get_axis_idx (self : Node) : nat :=
  match orient_axis_ self with
  | axis_X => 0
  | axis_Y => 1
  | axis_Z => 2
  end.

Definition orient_axis := get_axis_idx.

Definition count_const (self : Node) (v1 v2 : Vector) (vertices : list Vector)
    (count : Z) : result Z :=
  Ok count.

Definition count_up (self : Node) (v1 v2 : Vector) (vertices : list Vector)
    (count : Z) : result Z :=
  let distance := Vector_length (vsub v1 v2) in
  donor_size <- diameter vertices (orient_axis self) ;;
  q <- float_div distance donor_size ;;
  Ok (Zfloor q).

Definition count_down (self : Node) (v1 v2 : Vector) (vertices : list Vector)
    (count : Z) : result Z :=
  let distance := Vector_length (vsub v1 v2) in
  donor_size <- diameter vertices (orient_axis self) ;;
  q <- float_div distance donor_size ;;
  Ok (Zceil q).

Definition count_funcs (mode : CountMode)
    : Node -> Vector -> Vector -> list Vector -> Z -> result Z :=
  match mode with
  | mode_count => count_const
  | mode_up => count_up
  | mode_down => count_down
  | mode_off => count_up
  end.

Definition get_count (self : Node) (v1 v2 : Vector) (vertices : list Vector)
    (count : Z) : result Z :=
  let func := count_funcs (count_mode self) in
  func self v1 v2 vertices count.

Definition get_scale_off (self : Node) : bool :=
  match count_mode self with
  | mode_off => true
  | _ => false
  end.

Definition scale_off := get_scale_off.

(** Edge and face sets are only carried around: lists of index lists. *)
Definition EdgeSet : Type := list (list Z).
Definition FaceSet : Type := list (list Z).

(** The [origins] list of [duplicate_vertices]:
    [[v1 + direction*x + 0.5*one_item_length*u
       for x in np.linspace(0.0, 1.0, count+1)][:-1]]. *)
Definition origins (v1 direction : Vector) (one_item_length : R) (u : Vector)
    (count : Z) : result (list Vector) :=
  xs <- Numpy.linspace 0 1 (count + 1) ;;
  Ok (removelast
        (map (fun x => vadd (vadd v1 (vscale x direction))
                            (vscale (0.5 * one_item_length) u)) xs)).

Definition flip : Matrix :=
  mkMatrix (mkRow (-1) 0 0 0) (mkRow 0 1 0 0) (mkRow 0 0 1 0) (mkRow 0 0 0 1).

Definition duplicate_vertices (self : Node) (v1 v2 : Vector) (vertices : list Vector)
    (edges : EdgeSet) (faces : FaceSet) (count : Z)
    : result (list Matrix * list (list Vector)) :=
  let direction := vsub v2 v1 in
  let edge_length := Vector_length direction in
  one_item_length <- float_div edge_length (IZR count) ;;
  actual_length <- diameter vertices (orient_axis self) ;;
  x_scale <- float_div one_item_length actual_length ;;
  x <- getitem all_axes (orient_axis self) ;;
  let u := normalized direction in
  origins <- origins v1 direction one_item_length u count ;;
  if negb (Z.of_nat (List.length origins) =? count)%Z then Raise AssertionError
  else
    let scale :=
      if scale_off self then None
      else if scale_all self then Some (Scale x_scale)
      else Some (Scale_axis x_scale x) in
    rot <- inverted (autorotate x direction) ;;
    let matrices :=
      match scale with
      | None => map (fun o => mmul (mmul (Translation o) rot) flip) origins
      | Some scale =>
          map (fun o => mmul (mmul (mmul (Translation o) rot) scale) flip) origins
      end in
    let result_vertices :=
      if apply_matrices self
      then map (fun m => map (fun vertex => mul_vec m vertex) vertices) matrices
      else repeat vertices (Z.to_nat count) in
    Ok (matrices, result_vertices).

(** One tuple of the zipped [meshes] in [process]. *)
Record Item : Type := mkItem {
  item_vertices : list Vector;
  item_edges : EdgeSet;
  item_faces : FaceSet;
  item_vertex1 : Vector;
  item_vertex2 : Vector;
  item_count : Z
}.

(** The four accumulators of [process]. *)
Record Outputs : Type := mkOutputs {
  result_matrices : list Matrix;
  result_vertices : list (list Vector);
  result_edges : list EdgeSet;
  result_faces : list FaceSet
}.

Definition no_outputs : Outputs := mkOutputs [] [] [] [].

(** The body of the [for] loop of [process]. *)
Definition process_body (self : Node) (acc : Outputs) (it : Item) : result Outputs :=
  count <- get_count self (item_vertex1 it) (item_vertex2 it) (item_vertices it)
                     (item_count it) ;;
  let count := Z.max count 1 in
  r <- duplicate_vertices self (item_vertex1 it) (item_vertex2 it) (item_vertices it)
                          (item_edges it) (item_faces it) count ;;
  let '(new_matrices, new_vertices) := r in
  Ok (mkOutputs (result_matrices acc ++ new_matrices)
                (result_vertices acc ++ new_vertices)
                (result_edges acc ++ repeat (item_edges it) (Z.to_nat count))
                (result_faces acc ++ repeat (item_faces it) (Z.to_nat count))).

Fixpoint process_loop (self : Node) (meshes : list Item) (acc : Outputs)
    : result Outputs :=
  match meshes with
  | [] => Ok acc
  | it :: rest => acc' <- process_body self acc it ;; process_loop self rest acc'
  end.

Fixpoint zip_items (vs : list (list Vector)) (es : list EdgeSet) (fs : list FaceSet)
    (v1s v2s : list Vector) (cs : list Z) : list Item :=
  match vs, es, fs, v1s, v2s, cs with
  | v :: vs', e :: es', f :: fs', a :: v1s', b :: v2s', c :: cs' =>
      mkItem v e f a b c :: zip_items vs' es' fs' v1s' v2s' cs'
  | _, _, _, _, _, _ => []
  end.

(** The computation of [process] once the sockets have been read: the six
    input sequences are aligned to the longest and the tuples run through
    the loop. *)
Definition process (self : Node) (vertices_s : list (list Vector))
    (edges_s : list EdgeSet) (faces_s : list FaceSet)
    (vertices1_s vertices2_s : list Vector) (counts : list Z) : result Outputs :=
  let max_l := fold_right Nat.max 0%nat
                 [List.length vertices_s; List.length edges_s; List.length faces_s;
                  List.length vertices1_s; List.length vertices2_s; List.length counts] in
  vs <- align_to max_l vertices_s ;;
  es <- align_to max_l edges_s ;;
  fs <- align_to max_l faces_s ;;
  v1s <- align_to max_l vertices1_s ;;
  v2s <- align_to max_l vertices2_s ;;
  cs <- align_to max_l counts ;;
  process_loop self (zip_items vs es fs v1s v2s cs) no_outputs.

(** Python's [lst[i]] for an integer that may be negative: [-1] is the
    last element. *)
Definition py_getitem {A : Type} (l : list A) (i : Z) : result A :=
  let n := Z.of_nat (List.length l) in
  if ((0 <=? i) && (i <? n))%Z then getitem l (Z.to_nat i)
  else if ((- n <=? i) && (i <? 0))%Z then getitem l (Z.to_nat (n + i))
  else Raise IndexError.

(** [Matrix_degenerate]: every matrix as a list of its rows, every row
    ([j[:]]) as the sequence of its four entries. *)
Definition Row_slice (j : Row) : list R := [c0 j; c1 j; c2 j; c3 j].

Definition Matrix_rows (M : Matrix) : list Row := [r0 M; r1 M; r2 M; r3 M].

Definition Matrix_degenerate (ms : list Matrix) : list (list (list R)) :=
  map (fun M => map (fun j => Row_slice j) (Matrix_rows M)) ms.

(** The entries of [input_modes]. *)
Inductive InputMode : Type := input_edge | input_fixed.

(** [for (i,j) in edges]: an edge that is not a pair cannot be unpacked. *)
Definition unpack_pair (e : list Z) : result (Z * Z) :=
  match e with
  | [i; j] => Ok (i, j)
  | _ => Raise ValueError
  end.

(** [get_recipient_vertices]; the node's [input_mode] is passed in. *)
Definition get_recipient_vertices (input_mode : InputMode) (vs1 vs2 : list Vector)
    (vertices : list Vector) (edges : EdgeSet)
    : result (list Vector * list Vector) :=
  match input_mode with
  | input_fixed => Ok (vs1, vs2)
  | input_edge =>
      rs1 <- mapM (fun e => p <- unpack_pair e ;; py_getitem vertices (fst p)) edges ;;
      rs2 <- mapM (fun e => p <- unpack_pair e ;; py_getitem vertices (snd p)) edges ;;
      Ok (rs1, rs2)
  end.

(* ================================================================== *)
(** ** vd_draw_experimental.py *)

(** [tuple(sorted(edge))] for a pair of indices. *)
Definition sorted_edge (edge : Z * Z) : Z * Z :=
  (Z.min (fst edge) (snd edge), Z.max (fst edge) (snd edge)).

Definition edge_eq_dec (a b : Z * Z) : {a = b} + {a <> b}.
Proof. decide equality; apply Z.eq_dec. Defined.

(** [zip(face, list(face[1:]) + list([face[0]]))]: [face[0]] of an empty
    face raises IndexError. *)
Definition face_edges (face : list Z) : result (list (Z * Z)) :=
  match face with
  | [] => Raise IndexError
  | a :: rest => Ok (combine face (rest ++ [a]))
  end.

(** [edges_from_faces].  The Python set [out] is a list without repeats,
    [out.add] being [set_add]; the order in which [list(out)] enumerates
    the set is not given by the language, only membership is meant. *)
Definition edges_from_faces (indices : list (list Z)) : result (list (Z * Z)) :=
  fold_left
    (fun acc face =>
       out <- acc ;;
       es <- face_edges face ;;
       Ok (fold_left (fun out edge => set_add edge_eq_dec (sorted_edge edge) out) es out))
    indices (Ok []).

(** [ensure_triangles].  [tessellate] is mathutils.geometry's
    [tessellate_polygon], taken as a parameter. *)
Definition ensure_triangles (tessellate : list (list Vector) -> list (list Z))
    (coords : list Vector) (indices : list (list Z)) : result (list (list Z)) :=
  fold_left
    (fun acc idxset =>
       new_indices <- acc ;;
       match idxset with
       | [a; b; c] => Ok (new_indices ++ [[a; b; c]])
       | [a; b; c; d] => Ok (new_indices ++ [[a; b; c]; [a; c; d]])
       | _ =>
           subcoords <- mapM (fun idx => py_getitem coords idx) idxset ;;
           pols <- mapM (fun pol => mapM (fun i => py_getitem idxset i) pol)
                        (tessellate [subcoords]) ;;
           Ok (new_indices ++ pols)
       end)
    indices (Ok []).

(* ================================================================== *)
(** ** viewer_curves.py *)

(** [enumerate(iterable)] from index [start]. *)
Fixpoint enumerate_from {A : Type} (start : nat) (l : list A) : list (nat * A) :=
  match l with
  | [] => []
  | k :: l' => (start, k) :: enumerate_from (S start) l'
  end.

(** [tuple_to_enumdata]: [[(k, k, '', i) for i, k in enumerate(iterable)]]. *)
Definition tuple_to_enumdata {A : Type} (iterable : list A)
    : list (A * A * String.string * nat) :=
  map (fun ik => (snd ik, snd ik, String.EmptyString, fst ik))
      (enumerate_from 0 iterable).

(* ================================================================== *)
(** ** Notions used in the statements *)

(** The instance origins: midpoints of the [count] equal parts of the segment. *)
Definition midpoints (v1 direction : Vector) (count : Z) : list Vector :=
  map (fun k => vadd v1 (vscale ((INR k + 0.5) / IZR count) direction))
      (seq 0 (Z.to_nat count)).

(** The matrices built by [duplicate_vertices] from origins, rotation and
    scale factor. *)
Definition transforms (self : Node) (x : Vector) (rot : Matrix) (x_scale : R)
    (os : list Vector) : list Matrix :=
  if scale_off self
  then map (fun o => mmul (mmul (Translation o) rot) flip) os
  else map (fun o => mmul (mmul (mmul (Translation o) rot)
                                (if scale_all self then Scale x_scale
                                 else Scale_axis x_scale x)) flip) os.

(** Accumulators appended, and the contributions of a list of items
    laid end to end. *)
Definition append_outputs (a b : Outputs) : Outputs :=
  mkOutputs (result_matrices a ++ result_matrices b)
            (result_vertices a ++ result_vertices b)
            (result_edges a ++ result_edges b)
            (result_faces a ++ result_faces b).

Definition concat_outputs (outs : list Outputs) : Outputs :=
  mkOutputs (concat (map result_matrices outs))
            (concat (map result_vertices outs))
            (concat (map result_edges outs))
            (concat (map result_faces outs)).

(** The shape of what one batch item contributes. *)
Definition item_outputs_ok (self : Node) (it : Item) (o : Outputs) : Prop :=
  exists c0 count,
    get_count self (item_vertex1 it) (item_vertex2 it) (item_vertices it) (item_count it)
    = Ok c0 /\
    count = Z.max c0 1 /\ (1 <= count)%Z /\
    process_body self no_outputs it = Ok o /\
    List.length (result_matrices o) = Z.to_nat count /\
    List.length (result_vertices o) = Z.to_nat count /\
    Forall (fun vs => List.length vs = List.length (item_vertices it))
           (result_vertices o) /\
    result_edges o = repeat (item_edges it) (Z.to_nat count) /\
    result_faces o = repeat (item_faces it) (Z.to_nat count).

(** The transpose of a matrix. *)
Definition transpose (m : Matrix) : Matrix :=
  mkMatrix (mkRow (c0 (r0 m)) (c0 (r1 m)) (c0 (r2 m)) (c0 (r3 m)))
           (mkRow (c1 (r0 m)) (c1 (r1 m)) (c1 (r2 m)) (c1 (r3 m)))
           (mkRow (c2 (r0 m)) (c2 (r1 m)) (c2 (r2 m)) (c2 (r3 m)))
           (mkRow (c3 (r0 m)) (c3 (r1 m)) (c3 (r2 m)) (c3 (r3 m))).

(** The coordinate of a vertex on axis 0, 1 or 2. *)
Definition component (axis : nat) (v : Vector) : R :=
  match axis with
  | O => vx v
  | 1%nat => vy v
  | _ => vz v
  end.

(** What the factors after the translation do to a vertex. *)
Definition linear_image (self : Node) (x : Vector) (rot : Matrix) (s : R)
    (p : Vector) : Vector :=
  if scale_off self then mul_vec rot (mul_vec flip p)
  else mul_vec rot (mul_vec (if scale_all self then Scale s else Scale_axis s x)
                            (mul_vec flip p)).

(** The determinant of the scale factor of the transforms. *)
Definition scale_determinant (self : Node) (s : R) : R :=
  if scale_off self then 1 else if scale_all self then s * s * s else s.

(** One step of the outer loop of [edges_from_faces]. *)
Definition add_face_edges (acc : result (list (Z * Z))) (face : list Z)
    : result (list (Z * Z)) :=
  out <- acc ;;
  es <- face_edges face ;;
  Ok (fold_left (fun out edge => set_add edge_eq_dec (sorted_edge edge) out) es out).

(** The triangles a face of three or four indices is turned into. *)
Definition fan (idxset : list Z) : list (list Z) :=
  match idxset with
  | [a; b; c] => [[a; b; c]]
  | [a; b; c; d] => [[a; b; c]; [a; c; d]]
  | _ => []
  end.

Definition is_quad (idxset : list Z) : bool := Nat.eqb (List.length idxset) 4.

(** Unfolding of the matrix operations down to the entries. *)
Ltac unfold_matrix :=
  cbv [inverted determinant adjugate cofactor minor entry row_entry skip
       Nat.ltb Nat.leb sign Nat.even Nat.add
       householder mmul row_mul mscale row_scale msub row_map2 identity flip
       mul_vec row_apply Translation Scale
       r0 r1 r2 r3 c0 c1 c2 c3 det3 vx vy vz].

(** Two matrices are equal when their sixteen entries are. *)
Ltac matrix_ext := f_equal; f_equal.

(* ================================================================== *)
(** ** Vectors, lengths and normalisation *)

Lemma vector_eq (a b : Vector) :
  vx a = vx b -> vy a = vy b -> vz a = vz b -> a = b.
Proof. destruct a, b; simpl; intros; subst; reflexivity. Qed.

Lemma dot_self_nonneg (v : Vector) : 0 <= dot v v.
Proof. unfold dot; nra. Qed.

Lemma Vector_length_nonneg (v : Vector) : 0 <= Vector_length v.
Proof. apply sqrt_pos. Qed.

Lemma Vector_length_sqr (v : Vector) : Vector_length v * Vector_length v = dot v v.
Proof. apply sqrt_sqrt, dot_self_nonneg. Qed.

Lemma Vector_length_zero_iff (v : Vector) : Vector_length v = 0 <-> v = zero_vector.
Proof.
  split.
  - intros H. apply sqrt_eq_0 in H; [|apply dot_self_nonneg].
    unfold dot in H. apply vector_eq; simpl; nra.
  - intros ->. unfold Vector_length, dot; simpl.
    replace (0 * 0 + 0 * 0 + 0 * 0) with 0 by ring. apply sqrt_0.
Qed.

Lemma normalized_zero : normalized zero_vector = zero_vector.
Proof.
  unfold normalized. destruct (Req_dec_T _ 0) as [_|H]; [reflexivity|].
  exfalso; apply H, Vector_length_zero_iff; reflexivity.
Qed.

Lemma normalized_unit (v : Vector) :
  Vector_length v <> 0 -> dot (normalized v) (normalized v) = 1.
Proof.
  intros H. unfold normalized. destruct (Req_dec_T _ 0) as [E|_]; [contradiction|].
  pose proof (Vector_length_sqr v) as S. unfold dot in *; simpl.
  set (n := Vector_length v) in *.
  transitivity ((vx v * vx v + vy v * vy v + vz v * vz v) / (n * n)).
  - field; exact H.
  - rewrite <- S. field; exact H.
Qed.

Lemma all_axes_cases (i : nat) (e : Vector) :
  getitem all_axes i = Ok e ->
  e = mkVector 1 0 0 \/ e = mkVector 0 1 0 \/ e = mkVector 0 0 1.
Proof.
  unfold getitem, all_axes.
  destruct i as [|[|[|i]]]; simpl; intros H.
  - injection H as <-; auto.
  - injection H as <-; auto.
  - injection H as <-; auto.
  - destruct i; discriminate.
Qed.

Lemma getitem_orient_axis (self : Node) :
  exists e, getitem all_axes (orient_axis self) = Ok e.
Proof.
  unfold orient_axis, get_axis_idx.
  destruct (orient_axis_ self); eexists; reflexivity.
Qed.

(** The length of a non-negative multiple of a basis vector. *)
Lemma Vector_length_axis (c : R) (i : nat) (e : Vector) :
  getitem all_axes i = Ok e -> 0 <= c -> Vector_length (vscale c e) = c.
Proof.
  intros He Hc. unfold Vector_length.
  replace (dot (vscale c e) (vscale c e)) with (c * c).
  - apply sqrt_square, Hc.
  - destruct (all_axes_cases i e He) as [->|[->| ->]]; unfold dot; simpl; ring.
Qed.

(* ================================================================== *)
(** ** The Householder matrix *)

(** [inverted] returns a right inverse whenever it returns. *)
Lemma inverted_right (m m' : Matrix) : inverted m = Ok m' -> mmul m m' = identity.
Proof.
  unfold inverted. destruct (Req_dec_T (determinant m) 0) as [|Hd]; [discriminate|].
  intros H; injection H as <-.
  destruct m as [[a00 a01 a02 a03] [a10 a11 a12 a13] [a20 a21 a22 a23] [a30 a31 a32 a33]].
  revert Hd. unfold_matrix. intros Hd.
  matrix_ext; field; intro E; apply Hd; rewrite <- E; ring.
Qed.

Lemma householder_zero : householder zero_vector = identity.
Proof. unfold_matrix. unfold zero_vector. matrix_ext; ring. Qed.

Lemma householder_determinant (v : Vector) :
  dot v v = 1 -> determinant (householder v) = -1.
Proof.
  destruct v as [x y z]. unfold dot; simpl. intros H. unfold_matrix. nsatz.
Qed.

Lemma determinant_identity : determinant identity = 1.
Proof. unfold_matrix. ring. Qed.

Lemma inverted_identity : inverted identity = Ok identity.
Proof.
  unfold inverted. rewrite determinant_identity.
  destruct (Req_dec_T 1 0) as [E|_]; [lra|].
  f_equal. unfold_matrix. matrix_ext; field.
Qed.

(** A Householder reflection is its own inverse. *)
Lemma inverted_householder (v : Vector) :
  dot v v = 1 -> inverted (householder v) = Ok (householder v).
Proof.
  intros H. unfold inverted. rewrite (householder_determinant v H).
  destruct (Req_dec_T (-1) 0) as [E|_]; [lra|].
  f_equal. destruct v as [x y z]. unfold dot in H; simpl in H.
  replace (/ -1) with (-1) by (field; lra).
  unfold_matrix. matrix_ext; nsatz.
Qed.

(* ================================================================== *)
(** ** The orientation solver *)

(** The matrix built by [autorotate] is always invertible, and is its own
    inverse: it is either the identity or a reflection. *)
Lemma inverted_autorotate (e d : Vector) :
  inverted (autorotate e d) = Ok (autorotate e d).
Proof.
  unfold autorotate.
  set (u := vsub d (vscale (Vector_length d) e)).
  destruct (Req_dec_T (Vector_length u) 0) as [E|N].
  - apply Vector_length_zero_iff in E. rewrite E, normalized_zero, householder_zero.
    apply inverted_identity.
  - apply inverted_householder, normalized_unit, N.
Qed.

(** [autorotate e d] sends the basis vector [e] to the unit vector along [d]. *)
Lemma autorotate_axis_image (i : nat) (e d : Vector) :
  getitem all_axes i = Ok e -> Vector_length d <> 0 ->
  mul_vec (autorotate e d) e = normalized d.
Proof.
  intros He Hd. unfold autorotate.
  pose proof (Vector_length_sqr d) as Ha.
  unfold normalized at 2. destruct (Req_dec_T (Vector_length d) 0) as [|_]; [contradiction|].
  pose proof (Rinv_l _ Hd) as Hia.
  set (alpha := Vector_length d) in *.
  set (u := vsub d (vscale alpha e)).
  unfold normalized. destruct (Req_dec_T (Vector_length u) 0) as [E|N].
  - apply Vector_length_zero_iff in E. rewrite householder_zero.
    set (ia := / alpha) in *. clearbody ia alpha.
    destruct d as [dx dy dz]. unfold u, dot in *.
    destruct (all_axes_cases i e He) as [->|[->| ->]];
      unfold vsub, vscale, zero_vector in E; simpl in E; injection E as E1 E2 E3;
      apply vector_eq; unfold_matrix; unfold vscale; simpl; nsatz.
  - pose proof (Vector_length_sqr u) as Hn.
    pose proof (Rinv_l _ N) as Hin.
    set (n := Vector_length u) in *. set (i_n := / n) in *.
    set (ia := / alpha) in *. clearbody ia i_n n alpha.
    destruct d as [dx dy dz]. unfold u, dot in *.
    destruct (all_axes_cases i e He) as [->|[->| ->]];
      unfold vsub, vscale in *; simpl in *;
      apply vector_eq; unfold_matrix; unfold vscale; simpl; nsatz.
Qed.

(* ================================================================== *)
(** ** Placement origins *)

Lemma linspace_unit_init (c : nat) :
  (1 <= c)%nat ->
  exists xs, Numpy.linspace 0 1 (Z.of_nat c + 1) = Ok xs /\
             removelast xs = map (fun k => INR k * ((1 - 0) / INR c) + 0) (seq 0 c).
Proof.
  intros Hc. unfold Numpy.linspace.
  destruct (Z.ltb_spec (Z.of_nat c + 1) 0) as [Hneg|_]; [lia|].
  replace (Z.to_nat (Z.of_nat c + 1)) with (S c) by lia.
  replace (S c - 1)%nat with c by lia.
  destruct (Nat.ltb_spec 1 (S c)) as [_|Hlt]; [|lia].
  eexists; split; [reflexivity|].
  rewrite removelast_last.
  rewrite seq_S, map_app. simpl. apply removelast_last.
Qed.

Lemma removelast_map {A B : Type} (f : A -> B) (l : list A) :
  removelast (map f l) = map f (removelast l).
Proof.
  induction l as [|a [|b l] IH]; simpl; try reflexivity.
  simpl in IH. rewrite IH. reflexivity.
Qed.

(** The summand [0.5*one_item_length*u] is half a step along the segment. *)
Lemma half_step (d : Vector) (c : R) :
  c <> 0 ->
  vscale (0.5 * (Vector_length d / c)) (normalized d) = vscale (0.5 / c) d.
Proof.
  intros Hc. unfold normalized.
  destruct (Req_dec_T (Vector_length d) 0) as [E|N].
  - apply Vector_length_zero_iff in E. subst d.
    apply vector_eq; simpl; ring.
  - replace 0.5 with (/ 2) by lra.
    apply vector_eq; simpl; field; auto.
Qed.

Lemma origins_spec (v1 direction : Vector) (count : Z) :
  (1 <= count)%Z ->
  origins v1 direction (Vector_length direction / IZR count) (normalized direction) count
  = Ok (map (fun k => vadd v1 (vscale ((INR k + 0.5) / IZR count) direction))
            (seq 0 (Z.to_nat count))).
Proof.
  intros Hc. unfold origins.
  assert (Hc0 : IZR count <> 0) by (apply not_0_IZR; lia).
  assert (HI : INR (Z.to_nat count) = IZR count)
    by (rewrite INR_IZR_INZ, Z2Nat.id by lia; reflexivity).
  destruct (linspace_unit_init (Z.to_nat count)) as [xs [Hxs Hrm]]; [lia|].
  rewrite Z2Nat.id in Hxs by lia. rewrite Hxs. simpl. f_equal.
  rewrite removelast_map, Hrm, map_map.
  apply map_ext. intros k.
  rewrite half_step by exact Hc0. rewrite HI.
  replace 0.5 with (/ 2) by lra.
  apply vector_eq; simpl; field; exact Hc0.
Qed.

(* ================================================================== *)
(** ** Placement *)

Lemma float_div_ok (a b : R) : b <> 0 -> float_div a b = Ok (a / b).
Proof. intros H. unfold float_div. destruct (Req_dec_T b 0); [contradiction|reflexivity]. Qed.

Lemma float_div_zero (a : R) : float_div a 0 = Raise ZeroDivisionError.
Proof. unfold float_div. destruct (Req_dec_T 0 0) as [_|N]; [reflexivity|contradiction]. Qed.

(** [duplicate_vertices] returns for every count of at least 1 and every
    donor of non-zero extent along the orientation axis. *)
Lemma duplicate_vertices_ok (self : Node) (v1 v2 : Vector) (vertices : list Vector)
    (edges : EdgeSet) (faces : FaceSet) (count : Z) (E : R) (x : Vector) :
  (1 <= count)%Z ->
  diameter vertices (orient_axis self) = Ok E -> E <> 0 ->
  getitem all_axes (orient_axis self) = Ok x ->
  let direction := vsub v2 v1 in
  let matrices :=
    transforms self x (autorotate x direction)
               (Vector_length direction / IZR count / E)
               (midpoints v1 direction count) in
  duplicate_vertices self v1 v2 vertices edges faces count
  = Ok (matrices,
        if apply_matrices self
        then map (fun m => map (fun vertex => mul_vec m vertex) vertices) matrices
        else repeat vertices (Z.to_nat count)).
Proof.
  intros Hc HE HE0 Hx direction matrices.
  assert (Hc0 : IZR count <> 0) by (apply not_0_IZR; lia).
  unfold duplicate_vertices. fold direction.
  rewrite (float_div_ok _ _ Hc0). cbn [bind].
  rewrite HE. cbn [bind].
  rewrite (float_div_ok _ _ HE0). cbn [bind].
  rewrite Hx. cbn [bind].
  rewrite (origins_spec v1 direction count Hc). cbn [bind].
  fold (midpoints v1 direction count).
  assert (Hlen : Z.of_nat (List.length (midpoints v1 direction count)) = count).
  { unfold midpoints. rewrite length_map, length_seq. lia. }
  rewrite Hlen, Z.eqb_refl. cbn [negb].
  rewrite inverted_autorotate. cbn [bind].
  unfold matrices, transforms.
  destruct (scale_off self); [reflexivity|].
  destruct (scale_all self); reflexivity.
Qed.

Lemma transforms_length (self : Node) (x : Vector) (rot : Matrix) (s : R)
    (os : list Vector) :
  List.length (transforms self x rot s os) = List.length os.
Proof. unfold transforms. destruct (scale_off self); apply length_map. Qed.

Lemma midpoints_length (v1 direction : Vector) (count : Z) :
  List.length (midpoints v1 direction count) = Z.to_nat count.
Proof. unfold midpoints. rewrite length_map, length_seq. reflexivity. Qed.

(* ================================================================== *)
(** ** Count resolution *)

Lemma Vector_length_vsub_sym (a b : Vector) :
  Vector_length (vsub a b) = Vector_length (vsub b a).
Proof. unfold Vector_length. f_equal. unfold dot; simpl; ring. Qed.

Lemma count_up_floor (self : Node) (v1 v2 : Vector) (vertices : list Vector)
    (count : Z) (E : R) :
  diameter vertices (orient_axis self) = Ok E -> E <> 0 ->
  count_up self v1 v2 vertices count
  = Ok (Zfloor (Vector_length (vsub v2 v1) / E)).
Proof.
  intros HE HE0. unfold count_up. rewrite HE. cbn [bind].
  rewrite (float_div_ok _ _ HE0). cbn [bind].
  rewrite Vector_length_vsub_sym. reflexivity.
Qed.

Lemma count_down_ceil (self : Node) (v1 v2 : Vector) (vertices : list Vector)
    (count : Z) (E : R) :
  diameter vertices (orient_axis self) = Ok E -> E <> 0 ->
  count_down self v1 v2 vertices count
  = Ok (Zceil (Vector_length (vsub v2 v1) / E)).
Proof.
  intros HE HE0. unfold count_down. rewrite HE. cbn [bind].
  rewrite (float_div_ok _ _ HE0). cbn [bind].
  rewrite Vector_length_vsub_sym. reflexivity.
Qed.

Lemma Zceil_bound (x : R) : IZR (Zceil x) - 1 < x <= IZR (Zceil x).
Proof.
  unfold Zceil. rewrite opp_IZR.
  pose proof (Zfloor_bound (- x)). lra.
Qed.

(** A donor of two vertices one unit apart along X, used in the examples. *)
Lemma diameter_unit_donor (self : Node) :
  orient_axis_ self = axis_X ->
  diameter [mkVector 0 0 0; mkVector 1 0 0] (orient_axis self) = Ok 1.
Proof.
  intros H. unfold orient_axis, get_axis_idx. rewrite H.
  unfold diameter. cbn. f_equal.
  unfold Rmax, Rmin. destruct (Rle_dec 0 1); lra.
Qed.

Lemma Vector_length_along_X (a : R) :
  0 <= a -> Vector_length (vsub (mkVector a 0 0) (mkVector 0 0 0)) = a.
Proof.
  intros Ha. unfold Vector_length.
  replace (dot _ _) with (a * a) by (unfold dot; simpl; ring).
  apply sqrt_square, Ha.
Qed.

(** C2. For a segment of length L > 0 and a donor of extent E > 0 along the
    chosen axis, [get_count] returns the requested count unchanged in mode
    "count", floor(L / E) in mode "up" and ceil(L / E) in mode "down". *)
Theorem get_count_by_mode (self : Node) (v1 v2 : Vector) (vertices : list Vector)
    (count : Z) (L E : R) :
  Vector_length (vsub v2 v1) = L -> 0 < L ->
  diameter vertices (orient_axis self) = Ok E -> 0 < E ->
  match count_mode self with
  | mode_count => get_count self v1 v2 vertices count = Ok count
  | mode_up =>
      exists n, get_count self v1 v2 vertices count = Ok n /\
                n = Zfloor (L / E) /\ IZR n <= L / E < IZR n + 1
  | mode_down =>
      exists n, get_count self v1 v2 vertices count = Ok n /\
                n = Zceil (L / E) /\ IZR n - 1 < L / E <= IZR n
  | mode_off => True
  end.
Proof.
  intros HL HL0 HE HE0. assert (E <> 0) as HEn by lra.
  unfold get_count. destruct (count_mode self); cbn [count_funcs].
  - reflexivity.
  - exists (Zfloor (L / E)). rewrite <- HL. split; [|split].
    + apply (count_up_floor _ _ _ _ _ _ HE HEn).
    + reflexivity.
    + apply Zfloor_bound.
  - exists (Zceil (L / E)). rewrite <- HL. split; [|split].
    + apply (count_down_ceil _ _ _ _ _ _ HE HEn).
    + reflexivity.
    + apply Zceil_bound.
  - exact I.
Qed.

Lemma get_count_by_mode_witness :
  let self := mkNode mode_down axis_X false true in
  let v1 := mkVector 0 0 0 in
  let v2 := mkVector 3.5 0 0 in
  let donor := [mkVector 0 0 0; mkVector 1 0 0] in
  0 < 3.5 /\ 0 < 1 /\
  exists n, get_count self v1 v2 donor 7 = Ok n /\
            n = Zceil (3.5 / 1) /\ IZR n - 1 < 3.5 / 1 <= IZR n.
Proof.
  intros self v1 v2 donor.
  split; [lra|]. split; [lra|].
  apply (get_count_by_mode self v1 v2 donor 7 3.5 1).
  - apply Vector_length_along_X. lra.
  - lra.
  - apply diameter_unit_donor. reflexivity.
  - lra.
Defined.

(* ================================================================== *)
(** ** Rigid transforms *)

Lemma normalized_zero_or_unit (u : Vector) :
  normalized u = zero_vector \/ dot (normalized u) (normalized u) = 1.
Proof.
  destruct (Req_dec_T (Vector_length u) 0) as [E|N].
  - left. apply Vector_length_zero_iff in E. rewrite E. apply normalized_zero.
  - right. apply normalized_unit, N.
Qed.

(** Translation, Householder matrix and flip together keep all distances. *)
Lemma unscaled_transform_isometry (o e d p q : Vector) :
  let m := mmul (mmul (Translation o) (autorotate e d)) flip in
  Vector_length (vsub (mul_vec m p) (mul_vec m q)) = Vector_length (vsub p q).
Proof.
  intros m. unfold Vector_length. f_equal. unfold m, autorotate.
  destruct (normalized_zero_or_unit (vsub d (vscale (Vector_length d) e))) as [Z|U].
  - rewrite Z, householder_zero.
    destruct o, p, q. unfold dot, vsub. unfold_matrix. simpl. ring.
  - revert U. generalize (normalized (vsub d (vscale (Vector_length d) e))).
    intros [x y z] U. destruct o as [ox oy oz], p as [px py pz], q as [qx qy qz].
    unfold dot, vsub in *. simpl in U. unfold_matrix. simpl. nsatz.
Qed.

(** C7. In mode "off" the count is resolved by the same function as in mode
    "up", floor(length / extent); placement multiplies no scale matrix into
    the transforms, which keep all distances, so the copies keep their size
    and may fall short of the segment: for length 3.5 and extent 1.0 the
    count is 3 and three copies cover 3.0 < 3.5. *)
Theorem noscale_count_and_placement (self : Node) (v1 v2 : Vector)
    (vertices : list Vector) (edges : EdgeSet) (faces : FaceSet) (count : Z)
    (E : R) (x : Vector) :
  count_mode self = mode_off ->
  diameter vertices (orient_axis self) = Ok E -> E <> 0 ->
  getitem all_axes (orient_axis self) = Ok x ->
  let up := mkNode mode_up (orient_axis_ self) (scale_all self) (apply_matrices self) in
  let direction := vsub v2 v1 in
  get_count self v1 v2 vertices count = get_count up v1 v2 vertices count /\
  (exists n, get_count self v1 v2 vertices count = Ok n /\
             IZR n <= Vector_length direction / E < IZR n + 1) /\
  (forall c, (1 <= c)%Z ->
     exists os rv,
       origins v1 direction (Vector_length direction / IZR c)
               (normalized direction) c = Ok os /\
       duplicate_vertices self v1 v2 vertices edges faces c
       = Ok (map (fun o => mmul (mmul (Translation o) (autorotate x direction)) flip) os,
             rv) /\
       forall o p q,
         let m := mmul (mmul (Translation o) (autorotate x direction)) flip in
         Vector_length (vsub (mul_vec m p) (mul_vec m q)) = Vector_length (vsub p q)) /\
  (let donor := [mkVector 0 0 0; mkVector 1 0 0] in
   let node := mkNode mode_off axis_X (scale_all self) (apply_matrices self) in
   get_count node (mkVector 0 0 0) (mkVector 3.5 0 0) donor count = Ok 3%Z /\
   diameter donor (orient_axis node) = Ok 1 /\
   IZR 3 * 1 = 3.0 /\ 3.0 < 3.5).
Proof.
  intros Hm HE HE0 Hx up direction.
  split; [|split; [|split]].
  - unfold get_count, up. rewrite Hm. reflexivity.
  - unfold get_count. rewrite Hm. cbn [count_funcs].
    rewrite (count_up_floor _ _ _ _ _ _ HE HE0).
    eexists; split; [reflexivity|]. apply Zfloor_bound.
  - intros c Hc.
    exists (midpoints v1 direction c). eexists. split; [|split].
    + apply origins_spec, Hc.
    + rewrite (duplicate_vertices_ok self v1 v2 vertices edges faces c E x Hc HE HE0 Hx).
      fold direction. unfold transforms, scale_off, get_scale_off.
      rewrite Hm. reflexivity.
    + intros o p q. apply unscaled_transform_isometry.
  - intros donor node.
    assert (Hd : diameter donor (orient_axis node) = Ok 1)
      by (apply diameter_unit_donor; reflexivity).
    split; [|split; [exact Hd|split; lra]].
    unfold get_count. cbn [count_mode node count_funcs].
    rewrite (count_up_floor _ _ _ _ _ _ Hd) by lra.
    rewrite Vector_length_along_X by lra.
    f_equal. apply Zfloor_eq. lra.
Qed.

Lemma noscale_count_and_placement_witness :
  let self := mkNode mode_off axis_X false true in
  let donor := [mkVector 0 0 0; mkVector 1 0 0] in
  count_mode self = mode_off /\ (1 : R) <> 0 /\
  get_count self (mkVector 0 0 0) (mkVector 3.5 0 0) donor 5
  = get_count (mkNode mode_up axis_X false true)
              (mkVector 0 0 0) (mkVector 3.5 0 0) donor 5.
Proof.
  intros self donor.
  split; [reflexivity|]. split; [lra|].
  apply (noscale_count_and_placement self (mkVector 0 0 0) (mkVector 3.5 0 0)
           donor [] [] 5 1 (mkVector 1 0 0)).
  - reflexivity.
  - apply diameter_unit_donor. reflexivity.
  - lra.
  - reflexivity.
Defined.

(* ================================================================== *)
(** ** Rotation composed with the flip *)

Lemma mul_vec_flip (v : Vector) : mul_vec flip v = mkVector (- vx v) (vy v) (vz v).
Proof. destruct v. apply vector_eq; unfold_matrix; simpl; ring. Qed.

Lemma determinant_flip : determinant flip = -1.
Proof. unfold_matrix. ring. Qed.

(** On a basis vector the flip in front of the Householder matrix only
    changes the sign of the image, and only for the X axis. *)
Lemma mul_vec_householder_flip (i : nat) (e v : Vector) :
  getitem all_axes i = Ok e ->
  mul_vec (mmul (householder v) flip) e
  = vscale (if Nat.eqb i 0 then -1 else 1) (mul_vec (householder v) e).
Proof.
  intros He. unfold getitem, all_axes in He.
  destruct i as [|[|[|i]]]; simpl in He.
  - injection He as <-. apply vector_eq; unfold_matrix; simpl; ring.
  - injection He as <-. apply vector_eq; unfold_matrix; simpl; ring.
  - injection He as <-. apply vector_eq; unfold_matrix; simpl; ring.
  - destruct i; discriminate.
Qed.

Lemma flipped_axis_image (i : nat) (e d : Vector) :
  getitem all_axes i = Ok e -> Vector_length d <> 0 ->
  mul_vec (mmul (autorotate e d) flip) e
  = vscale (if Nat.eqb i 0 then -1 else 1) (normalized d).
Proof.
  intros He Hd. rewrite <- (autorotate_axis_image i e d He Hd).
  unfold autorotate. apply mul_vec_householder_flip, He.
Qed.

Lemma dot_vscale_l (s : R) (a b : Vector) : dot (vscale s a) b = s * dot a b.
Proof. unfold dot; simpl; ring. Qed.

Lemma autorotate_aligned (i : nat) (e : Vector) (c : R) :
  getitem all_axes i = Ok e -> 0 <= c ->
  vsub (vscale c e) (vscale (Vector_length (vscale c e)) e) = zero_vector.
Proof.
  intros He Hc. rewrite (Vector_length_axis c i e He Hc).
  apply vector_eq; simpl; ring.
Qed.

Lemma autorotate_identity (e d : Vector) :
  vsub d (vscale (Vector_length d) e) = zero_vector -> autorotate e d = identity.
Proof.
  intros H. unfold autorotate. rewrite H, normalized_zero. apply householder_zero.
Qed.

Lemma mmul_identity_l (m : Matrix) : mmul identity m = m.
Proof.
  destruct m as [[a00 a01 a02 a03] [a10 a11 a12 a13] [a20 a21 a22 a23] [a30 a31 a32 a33]].
  unfold_matrix. matrix_ext; ring.
Qed.

Lemma mmul_identity_r (m : Matrix) : mmul m identity = m.
Proof.
  destruct m as [[a00 a01 a02 a03] [a10 a11 a12 a13] [a20 a21 a22 a23] [a30 a31 a32 a33]].
  unfold_matrix. matrix_ext; ring.
Qed.

(** C1 (amended). For every direction d with |d| > 0 the inverse of the
    Householder matrix of [autorotate] maps the reference axis onto d/|d|
    (dot product with the normalised d equal to 1) and is the identity when
    d is a positive multiple of the reference axis.  Composed with [flip] as
    in the instance transform, the image of the reference axis is d/|d| for
    the axes Y and Z, and -d/|d| for the axis X; for d a positive multiple
    of the axis the composition is [flip] itself. *)
Theorem orientation_maps_axis_onto_direction (i : nat) (e d : Vector) :
  getitem all_axes i = Ok e -> 0 < Vector_length d ->
  exists rot,
    inverted (autorotate e d) = Ok rot /\
    mul_vec rot e = normalized d /\
    dot (mul_vec rot e) (normalized d) = 1 /\
    dot (mul_vec (mmul rot flip) e) (normalized d) = (if Nat.eqb i 0 then -1 else 1) /\
    ((exists c, 0 < c /\ d = vscale c e) -> rot = identity /\ mmul rot flip = flip).
Proof.
  intros He Hd. assert (Hd0 : Vector_length d <> 0) by lra.
  exists (autorotate e d).
  pose proof (autorotate_axis_image i e d He Hd0) as Him.
  pose proof (normalized_unit d Hd0) as Hu.
  split; [apply inverted_autorotate|].
  split; [exact Him|].
  split; [rewrite Him; exact Hu|].
  split.
  - rewrite (flipped_axis_image i e d He Hd0), dot_vscale_l, Hu. ring.
  - intros [c [Hc ->]].
    assert (HI : autorotate e (vscale c e) = identity).
    { apply autorotate_identity, (autorotate_aligned i); [exact He|lra]. }
    rewrite HI. split; [reflexivity|apply mmul_identity_l].
Qed.

Lemma orientation_maps_axis_onto_direction_witness :
  let e := mkVector 0 1 0 in
  let d := mkVector 0 2 0 in
  getitem all_axes 1 = Ok e /\ 0 < Vector_length d /\
  exists rot,
    inverted (autorotate e d) = Ok rot /\
    dot (mul_vec (mmul rot flip) e) (normalized d) = 1.
Proof.
  intros e d.
  assert (Hd : 0 < Vector_length d).
  { unfold Vector_length. apply sqrt_lt_R0. unfold dot; simpl; lra. }
  split; [reflexivity|]. split; [exact Hd|].
  destruct (orientation_maps_axis_onto_direction 1 e d eq_refl Hd)
    as [rot [H1 [_ [_ [H4 _]]]]].
  exists rot. split; [exact H1|exact H4].
Defined.

(** C1 as stated fails for the X axis: with d = (7, 24, 0) the rotation
    composed with [flip] sends the X axis to -d/|d|. *)
Lemma axis_X_image_is_antiparallel :
  let x := mkVector 1 0 0 in
  let d := mkVector 7 24 0 in
  getitem all_axes 0 = Ok x /\ 0 < Vector_length d /\
  inverted (autorotate x d) = Ok (autorotate x d) /\
  dot (mul_vec (mmul (autorotate x d) flip) x) (normalized d) = -1 /\
  dot (mul_vec (mmul (autorotate x d) flip) x) (normalized d) <> 1.
Proof.
  intros x d.
  assert (Hd : 0 < Vector_length d).
  { unfold Vector_length. apply sqrt_lt_R0. unfold dot; simpl; lra. }
  assert (Hd0 : Vector_length d <> 0) by lra.
  assert (Hdot : dot (mul_vec (mmul (autorotate x d) flip) x) (normalized d) = -1).
  { rewrite (flipped_axis_image 0 x d eq_refl Hd0), dot_vscale_l,
      (normalized_unit d Hd0). simpl. ring. }
  split; [reflexivity|]. split; [exact Hd|].
  split; [apply inverted_autorotate|].
  split; [exact Hdot|]. rewrite Hdot. lra.
Qed.


Lemma not_aligned_nonzero (e d : Vector) :
  (forall c, 0 <= c -> d <> vscale c e) ->
  Vector_length (vsub d (vscale (Vector_length d) e)) <> 0.
Proof.
  intros H E. apply Vector_length_zero_iff in E.
  apply (H (Vector_length d) (Vector_length_nonneg d)).
  destruct d, e. unfold vsub, vscale, zero_vector in *. simpl in *.
  injection E as E1 E2 E3. apply vector_eq; simpl; lra.
Qed.


(** With the direction along the reference axis the Householder matrix is
    the identity and the transform keeps the determinant -1 of [flip]. *)
Lemma determinant_aligned (i : nat) (e : Vector) (c : R) :
  getitem all_axes i = Ok e -> 0 <= c ->
  determinant (mmul (autorotate e (vscale c e)) flip) = -1.
Proof.
  intros He Hc.
  rewrite (autorotate_identity _ _ (autorotate_aligned i e c He Hc)).
  rewrite mmul_identity_l. apply determinant_flip.
Qed.

(** C10. [autorotate] has no guarded branch and returns a matrix for every
    direction.  When u = d - |d|*e is the zero vector (d the zero vector, or
    d a non-negative multiple of the reference axis e), [normalized] returns
    the zero vector, [householder] of it is the identity matrix, and
    inverting the result succeeds. *)
Theorem autorotate_total_on_degenerate (i : nat) (e : Vector) (c : R) :
  getitem all_axes i = Ok e -> 0 <= c ->
  let d := vscale c e in
  let u := vsub d (vscale (Vector_length d) e) in
  u = zero_vector /\
  normalized u = zero_vector /\
  householder (normalized u) = identity /\
  autorotate e d = identity /\
  inverted (autorotate e d) = Ok identity /\
  autorotate e zero_vector = identity /\
  (forall e' d', exists m, inverted (autorotate e' d') = Ok m).
Proof.
  intros He Hc d u.
  assert (Hu : u = zero_vector) by (apply (autorotate_aligned i); assumption).
  assert (HI : autorotate e d = identity) by (apply autorotate_identity; exact Hu).
  split; [exact Hu|].
  split; [rewrite Hu; apply normalized_zero|].
  split; [rewrite Hu, normalized_zero; apply householder_zero|].
  split; [exact HI|].
  split; [rewrite HI; apply inverted_identity|].
  split.
  - apply autorotate_identity.
    replace (Vector_length zero_vector) with 0
      by (symmetry; apply Vector_length_zero_iff; reflexivity).
    apply vector_eq; simpl; ring.
  - intros e' d'. exists (autorotate e' d'). apply inverted_autorotate.
Qed.

Lemma autorotate_total_on_degenerate_witness :
  let e := mkVector 1 0 0 in
  getitem all_axes 0 = Ok e /\ 0 <= 2 /\ autorotate e (vscale 2 e) = identity.
Proof.
  intros e. split; [reflexivity|]. split; [lra|].
  apply (autorotate_total_on_degenerate 0 e 2); [reflexivity|lra].
Defined.

(* ================================================================== *)
(** ** Scale matrices *)

Lemma Vector_length_basis (i : nat) (e : Vector) :
  getitem all_axes i = Ok e -> Vector_length e = 1.
Proof.
  intros He. unfold Vector_length.
  replace (dot e e) with 1.
  - apply sqrt_1.
  - destruct (all_axes_cases i e He) as [->|[->| ->]]; unfold dot; simpl; ring.
Qed.

Lemma mul_vec_Scale (s : R) (v : Vector) : mul_vec (Scale s) v = vscale s v.
Proof. destruct v. apply vector_eq; unfold_matrix; simpl; ring. Qed.

(** [Matrix.Scale(s, 4, x)] for a basis vector [x] scales the component
    along [x] and nothing else. *)
Lemma mul_vec_Scale_axis (i : nat) (x : Vector) (s : R) (v : Vector) :
  getitem all_axes i = Ok x ->
  mul_vec (Scale_axis s x) v = vadd v (vscale ((s - 1) * dot x v) x).
Proof.
  intros Hx. unfold Scale_axis. rewrite (Vector_length_basis i x Hx).
  destruct v as [a b c].
  destruct (all_axes_cases i x Hx) as [->|[->| ->]];
    apply vector_eq; unfold mul_vec, row_apply, dot; simpl; field.
Qed.

Lemma nth_transforms (self : Node) (x : Vector) (rot : Matrix) (s : R)
    (os : list Vector) (k : nat) :
  (k < List.length os)%nat ->
  nth k (transforms self x rot s os) identity
  = let T := Translation (nth k os zero_vector) in
    if scale_off self then mmul (mmul T rot) flip
    else mmul (mmul (mmul T rot)
                    (if scale_all self then Scale s else Scale_axis s x)) flip.
Proof.
  intros Hk. unfold transforms. cbv zeta.
  destruct (scale_off self).
  - rewrite (nth_indep _ identity
               (mmul (mmul (Translation zero_vector) rot) flip))
      by (rewrite length_map; exact Hk).
    apply (map_nth (fun o => mmul (mmul (Translation o) rot) flip)).
  - set (S := if scale_all self then Scale s else Scale_axis s x).
    rewrite (nth_indep _ identity
               (mmul (mmul (mmul (Translation zero_vector) rot) S) flip))
      by (rewrite length_map; exact Hk).
    apply (map_nth (fun o => mmul (mmul (mmul (Translation o) rot) S) flip)).
Qed.

(** When count resolution divides by the donor extent and returns, the
    extent is not zero. *)
Lemma get_count_extent_nonzero (self : Node) (v1 v2 : Vector) (vertices : list Vector)
    (requested c0 : Z) (E : R) :
  get_count self v1 v2 vertices requested = Ok c0 ->
  diameter vertices (orient_axis self) = Ok E ->
  count_mode self <> mode_count -> E <> 0.
Proof.
  intros Hg HE Hm E0. subst E. revert Hg. unfold get_count.
  destruct (count_mode self); cbn [count_funcs]; try congruence;
    unfold count_up, count_down; rewrite HE; cbn [bind];
    rewrite float_div_zero; discriminate.
Qed.

(** C4. For every batch item whose count resolves, every instance transform
    is Translation(origin_k) * Rotation * Scale * flip with scale factor
    s = step / donor_extent, step = segment_length / count:
    [Matrix.Scale(s, 4)] on all three axes when [scale_all] is set,
    [Matrix.Scale(s, 4, x)] on the orientation axis only otherwise.  In mode
    "off" no scale matrix is among the factors (the same as the identity in
    its place), and nothing is asked of the extent beyond what count
    resolution already needed. *)
Theorem instance_transform_composition (self : Node) (v1 v2 : Vector)
    (vertices : list Vector) (edges : EdgeSet) (faces : FaceSet)
    (requested c0 : Z) (E : R) (x : Vector) :
  get_count self v1 v2 vertices requested = Ok c0 ->
  diameter vertices (orient_axis self) = Ok E ->
  (count_mode self = mode_count -> E <> 0) ->
  getitem all_axes (orient_axis self) = Ok x ->
  let count := Z.max c0 1 in
  let direction := vsub v2 v1 in
  let step := Vector_length direction / IZR count in
  let s := step / E in
  exists os rot matrices rv,
    origins v1 direction step (normalized direction) count = Ok os /\
    inverted (autorotate x direction) = Ok rot /\
    duplicate_vertices self v1 v2 vertices edges faces count = Ok (matrices, rv) /\
    List.length matrices = Z.to_nat count /\
    (forall k, (k < Z.to_nat count)%nat ->
       let T := Translation (nth k os zero_vector) in
       nth k matrices identity
       = match count_mode self with
         | mode_off => mmul (mmul T rot) flip
         | _ => mmul (mmul (mmul T rot)
                           (if scale_all self then Scale s else Scale_axis s x)) flip
         end /\
       mmul (mmul T rot) flip = mmul (mmul (mmul T rot) identity) flip) /\
    (forall v, mul_vec (Scale s) v = vscale s v) /\
    (forall v, mul_vec (Scale_axis s x) v = vadd v (vscale ((s - 1) * dot x v) x)).
Proof.
  intros Hg HE HEc Hx count direction step s.
  assert (Hc : (1 <= count)%Z) by (unfold count; lia).
  assert (HE0 : E <> 0).
  { destruct (count_mode self) eqn:Hm; try (apply HEc; reflexivity);
      apply (get_count_extent_nonzero self v1 v2 vertices requested c0 E Hg HE);
      rewrite Hm; discriminate. }
  exists (midpoints v1 direction count), (autorotate x direction).
  eexists. eexists.
  split; [apply origins_spec, Hc|].
  split; [apply inverted_autorotate|].
  split; [apply (duplicate_vertices_ok self v1 v2 vertices edges faces count E x Hc HE HE0 Hx)|].
  fold direction. fold step. fold s.
  split; [rewrite transforms_length; apply midpoints_length|].
  split; [|split].
  - intros k Hk T. split.
    + rewrite nth_transforms by (rewrite midpoints_length; exact Hk).
      unfold scale_off, get_scale_off. destruct (count_mode self); reflexivity.
    + rewrite mmul_identity_r. reflexivity.
  - apply mul_vec_Scale.
  - intros v. apply (mul_vec_Scale_axis (orient_axis self)), Hx.
Qed.

Lemma instance_transform_composition_witness :
  let self := mkNode mode_count axis_X false true in
  let donor := [mkVector 0 0 0; mkVector 1 0 0] in
  get_count self (mkVector 0 0 0) (mkVector 3.5 0 0) donor 4 = Ok 4%Z /\
  (count_mode self = mode_count -> (1 : R) <> 0) /\
  exists matrices rv,
    duplicate_vertices self (mkVector 0 0 0) (mkVector 3.5 0 0) donor [] [] 4
    = Ok (matrices, rv) /\
    List.length matrices = 4%nat.
Proof.
  intros self donor. split; [reflexivity|]. split; [intros _; lra|].
  destruct (instance_transform_composition self (mkVector 0 0 0) (mkVector 3.5 0 0)
              donor [] [] 4 4 1 (mkVector 1 0 0))
    as [os [rot [matrices [rv [_ [_ [H3 [H4 _]]]]]]]].
  - reflexivity.
  - apply diameter_unit_donor. reflexivity.
  - intros _. lra.
  - reflexivity.
  - exists matrices, rv. split; [exact H3|exact H4].
Defined.

(* ================================================================== *)
(** ** Degenerate donors and segments *)

Lemma Vector_length_vsub_self (v : Vector) : Vector_length (vsub v v) = 0.
Proof. apply Vector_length_zero_iff. apply vector_eq; simpl; ring. Qed.

Lemma get_count_zero_extent (self : Node) (v1 v2 : Vector) (vertices : list Vector)
    (count : Z) :
  diameter vertices (orient_axis self) = Ok 0 ->
  count_mode self <> mode_count ->
  get_count self v1 v2 vertices count = Raise ZeroDivisionError.
Proof.
  intros HE Hm. unfold get_count.
  destruct (count_mode self); cbn [count_funcs]; try congruence;
    unfold count_up, count_down; rewrite HE; cbn [bind];
    rewrite float_div_zero; reflexivity.
Qed.

Lemma duplicate_vertices_zero_extent (self : Node) (v1 v2 : Vector)
    (vertices : list Vector) (edges : EdgeSet) (faces : FaceSet) (count : Z) :
  diameter vertices (orient_axis self) = Ok 0 ->
  duplicate_vertices self v1 v2 vertices edges faces count = Raise ZeroDivisionError.
Proof.
  intros HE. unfold duplicate_vertices.
  destruct (float_div (Vector_length (vsub v2 v1)) (IZR count)) as [q|e] eqn:Hq.
  - cbn [bind]. rewrite HE. cbn [bind]. rewrite float_div_zero. reflexivity.
  - unfold float_div in Hq. destruct (Req_dec_T (IZR count) 0); [|discriminate].
    injection Hq as <-. reflexivity.
Qed.

Lemma get_count_zero_segment (self : Node) (v : Vector) (vertices : list Vector)
    (count : Z) (E : R) :
  diameter vertices (orient_axis self) = Ok E -> E <> 0 ->
  get_count self v v vertices count
  = Ok (match count_mode self with mode_count => count | _ => 0%Z end).
Proof.
  intros HE HE0.
  assert (HF : Zfloor (Vector_length (vsub v v) / E) = 0%Z).
  { rewrite Vector_length_vsub_self. apply Zfloor_eq. unfold Rdiv. lra. }
  assert (HC : Zceil (Vector_length (vsub v v) / E) = 0%Z).
  { rewrite Vector_length_vsub_self. apply Zceil_eq. unfold Rdiv. lra. }
  unfold get_count. destruct (count_mode self); cbn [count_funcs].
  - reflexivity.
  - rewrite (count_up_floor _ _ _ _ _ _ HE HE0), HF. reflexivity.
  - rewrite (count_down_ceil _ _ _ _ _ _ HE HE0), HC. reflexivity.
  - rewrite (count_up_floor _ _ _ _ _ _ HE HE0), HF. reflexivity.
Qed.

(** What one pass through the loop body appends, given the resolved count. *)
Lemma process_body_ok (self : Node) (acc : Outputs) (it : Item) (c0 : Z) (E : R)
    (x : Vector) :
  get_count self (item_vertex1 it) (item_vertex2 it) (item_vertices it) (item_count it)
  = Ok c0 ->
  diameter (item_vertices it) (orient_axis self) = Ok E -> E <> 0 ->
  getitem all_axes (orient_axis self) = Ok x ->
  let count := Z.max c0 1 in
  let direction := vsub (item_vertex2 it) (item_vertex1 it) in
  let matrices :=
    transforms self x (autorotate x direction)
               (Vector_length direction / IZR count / E)
               (midpoints (item_vertex1 it) direction count) in
  process_body self acc it
  = Ok (mkOutputs
          (result_matrices acc ++ matrices)
          (result_vertices acc ++
             (if apply_matrices self
              then map (fun m => map (fun vertex => mul_vec m vertex) (item_vertices it))
                       matrices
              else repeat (item_vertices it) (Z.to_nat count)))
          (result_edges acc ++ repeat (item_edges it) (Z.to_nat count))
          (result_faces acc ++ repeat (item_faces it) (Z.to_nat count))).
Proof.
  intros Hg HE HE0 Hx count direction matrices.
  unfold process_body. rewrite Hg. cbn [bind]. fold count.
  rewrite (duplicate_vertices_ok self _ _ _ (item_edges it) (item_faces it) count E x)
    by (try assumption; unfold count; lia).
  cbn [bind]. reflexivity.
Qed.

(** C5 (amended). With a donor of extent 0 along the chosen axis, count
    resolution fails with a division by zero in the modes "up", "down" and
    "off" and returns the requested count in mode "count"; placement then
    fails with a division by zero in every mode, so the batch item fails and
    no value is substituted for the extent.  A segment of zero length raises
    nothing in any mode: the count resolves to 0 in the modes "up", "down"
    and "off" (to the requested count in mode "count") and the loop body
    returns its instances. *)
Theorem degenerate_donor_and_segment (self : Node) (acc : Outputs) (it : Item) (E : R) :
  diameter (item_vertices it) (orient_axis self) = Ok E ->
  let v1 := item_vertex1 it in
  let v2 := item_vertex2 it in
  let get := get_count self v1 v2 (item_vertices it) (item_count it) in
  (E = 0 ->
     (count_mode self <> mode_count -> get = Raise ZeroDivisionError) /\
     (count_mode self = mode_count -> get = Ok (item_count it)) /\
     (forall c, duplicate_vertices self v1 v2 (item_vertices it) (item_edges it)
                                   (item_faces it) c = Raise ZeroDivisionError) /\
     process_body self acc it = Raise ZeroDivisionError) /\
  (E <> 0 -> v1 = v2 ->
     get = Ok (match count_mode self with mode_count => item_count it | _ => 0%Z end) /\
     exists out, process_body self acc it = Ok out /\
                 (count_mode self <> mode_count ->
                    List.length (result_matrices out)
                    = S (List.length (result_matrices acc)))).
Proof.
  intros HE v1 v2 get. split.
  - intros ->.
    assert (Hd : forall c, duplicate_vertices self v1 v2 (item_vertices it) (item_edges it)
                             (item_faces it) c = Raise ZeroDivisionError)
      by (intros c; apply duplicate_vertices_zero_extent, HE).
    split; [apply get_count_zero_extent, HE|].
    split; [intros Hm; unfold get, get_count; rewrite Hm; reflexivity|].
    split; [exact Hd|].
    unfold process_body. fold v1 v2.
    destruct (count_mode self) eqn:Hm.
    + unfold get_count. rewrite Hm. cbn [count_funcs count_const bind].
      rewrite Hd. reflexivity.
    + rewrite get_count_zero_extent by (try exact HE; rewrite Hm; discriminate).
      reflexivity.
    + rewrite get_count_zero_extent by (try exact HE; rewrite Hm; discriminate).
      reflexivity.
    + rewrite get_count_zero_extent by (try exact HE; rewrite Hm; discriminate).
      reflexivity.
  - intros HE0 Hv.
    assert (Hg : get = Ok (match count_mode self with
                           | mode_count => item_count it | _ => 0%Z end)).
    { unfold get. rewrite <- Hv. apply (get_count_zero_segment _ _ _ _ E HE HE0). }
    split; [exact Hg|].
    destruct (getitem_orient_axis self) as [x Hx].
    eexists. split.
    + apply (process_body_ok self acc it _ E x Hg HE HE0 Hx).
    + intros Hm. cbn [result_matrices].
      rewrite length_app, transforms_length, midpoints_length.
      destruct (count_mode self); try congruence; simpl; lia.
Qed.

Lemma degenerate_donor_and_segment_witness :
  let self := mkNode mode_up axis_X false true in
  let v := mkVector 0 0 0 in
  let it := mkItem [mkVector 0 0 0; mkVector 1 0 0] [] [] v v 3 in
  diameter (item_vertices it) (orient_axis self) = Ok 1 /\
  get_count self v v (item_vertices it) 3 = Ok 0%Z.
Proof.
  intros self v it.
  assert (Hd : diameter (item_vertices it) (orient_axis self) = Ok 1)
    by (apply diameter_unit_donor; reflexivity).
  split; [exact Hd|].
  destruct (degenerate_donor_and_segment self no_outputs it 1 Hd) as [_ H].
  destruct H as [Hg _]; [lra|reflexivity|]. exact Hg.
Defined.

(** C5 as stated fails on a segment of zero length: in mode "up", with a
    donor of extent 1, count resolution returns 0 and the loop body returns
    one instance; no error is raised. *)
Lemma zero_length_segment_is_accepted :
  let self := mkNode mode_up axis_X false true in
  let v := mkVector 0 0 0 in
  let it := mkItem [mkVector 0 0 0; mkVector 1 0 0] [] [] v v 3 in
  get_count self v v (item_vertices it) 3 = Ok 0%Z /\
  exists out, process_body self no_outputs it = Ok out /\
              List.length (result_matrices out) = 1%nat.
Proof.
  intros self v it.
  assert (Hd : diameter (item_vertices it) (orient_axis self) = Ok 1)
    by (apply diameter_unit_donor; reflexivity).
  assert (Hg : get_count self v v (item_vertices it) 3 = Ok 0%Z).
  { rewrite (get_count_zero_segment self v _ 3 1 Hd) by lra. reflexivity. }
  split; [exact Hg|].
  eexists. split.
  - apply (process_body_ok self no_outputs it 0 1 (mkVector 1 0 0) Hg Hd);
      [lra|reflexivity].
  - unfold no_outputs. cbn [result_matrices app].
    rewrite transforms_length, midpoints_length. reflexivity.
Qed.

(* ================================================================== *)
(** ** The batch loop *)

Lemma get_count_ok (self : Node) (v1 v2 : Vector) (vertices : list Vector)
    (count : Z) (E : R) :
  diameter vertices (orient_axis self) = Ok E -> E <> 0 ->
  exists c0, get_count self v1 v2 vertices count = Ok c0.
Proof.
  intros HE HE0. unfold get_count. destruct (count_mode self); cbn [count_funcs].
  - eexists; reflexivity.
  - eexists; apply (count_up_floor _ _ _ _ _ _ HE HE0).
  - eexists; apply (count_down_ceil _ _ _ _ _ _ HE HE0).
  - eexists; apply (count_up_floor _ _ _ _ _ _ HE HE0).
Qed.

(** The loop body only appends to the accumulators. *)
Lemma process_body_acc (self : Node) (acc : Outputs) (it : Item) (o : Outputs) :
  process_body self no_outputs it = Ok o ->
  process_body self acc it = Ok (append_outputs acc o).
Proof.
  unfold process_body.
  destruct (get_count self _ _ _ _) as [c0|e]; cbn [bind]; [|discriminate].
  destruct (duplicate_vertices self _ _ _ _ _ _) as [[ms vs]|e]; cbn [bind];
    [|discriminate].
  intros H. injection H as <-. reflexivity.
Qed.

Lemma append_outputs_assoc (a b c : Outputs) :
  append_outputs (append_outputs a b) c = append_outputs a (append_outputs b c).
Proof. unfold append_outputs; simpl. rewrite <- !app_assoc. reflexivity. Qed.

Lemma append_no_outputs_r (a : Outputs) : append_outputs a (concat_outputs []) = a.
Proof. destruct a. unfold append_outputs; simpl. rewrite !app_nil_r. reflexivity. Qed.

Lemma concat_outputs_cons (o : Outputs) (outs : list Outputs) :
  concat_outputs (o :: outs) = append_outputs o (concat_outputs outs).
Proof. reflexivity. Qed.

Lemma process_loop_acc (self : Node) (items : list Item) (outs : list Outputs) :
  Forall2 (fun it o => process_body self no_outputs it = Ok o) items outs ->
  forall acc,
    process_loop self items acc = Ok (append_outputs acc (concat_outputs outs)).
Proof.
  induction 1 as [|it o items outs Hit _ IH]; intros acc.
  - simpl. rewrite append_no_outputs_r. reflexivity.
  - cbn [process_loop]. rewrite (process_body_acc self acc it o Hit). cbn [bind].
    rewrite IH, concat_outputs_cons, append_outputs_assoc. reflexivity.
Qed.

Lemma item_outputs_exist (self : Node) (it : Item) (E : R) :
  diameter (item_vertices it) (orient_axis self) = Ok E -> E <> 0 ->
  exists o, item_outputs_ok self it o.
Proof.
  intros HE HE0.
  destruct (get_count_ok self (item_vertex1 it) (item_vertex2 it) (item_vertices it)
              (item_count it) E HE HE0) as [c0 Hg].
  destruct (getitem_orient_axis self) as [x Hx].
  eexists. exists c0, (Z.max c0 1).
  split; [exact Hg|]. split; [reflexivity|]. split; [lia|].
  split; [apply (process_body_ok self no_outputs it c0 E x Hg HE HE0 Hx)|].
  unfold no_outputs. cbn [result_matrices result_vertices result_edges result_faces app].
  split; [rewrite transforms_length; apply midpoints_length|].
  assert (Hl : forall ms : list Matrix,
             List.length ms = Z.to_nat (Z.max c0 1) ->
             let rv := if apply_matrices self
                       then map (fun m => map (fun vertex => mul_vec m vertex)
                                              (item_vertices it)) ms
                       else repeat (item_vertices it) (Z.to_nat (Z.max c0 1)) in
             List.length rv = Z.to_nat (Z.max c0 1) /\
             Forall (fun vs => List.length vs = List.length (item_vertices it)) rv).
  { intros ms Hms rv. unfold rv. destruct (apply_matrices self).
    - split; [rewrite length_map; exact Hms|].
      apply Forall_forall. intros vs Hin. apply in_map_iff in Hin.
      destruct Hin as [m [<- _]]. apply length_map.
    - split; [apply repeat_length|].
      apply Forall_forall. intros vs Hin. apply repeat_spec in Hin.
      rewrite Hin. reflexivity. }
  match goal with
  | |- List.length (if _ then map _ ?ms else _) = _ /\ _ =>
      destruct (Hl ms) as [H1 H2];
        [rewrite transforms_length; apply midpoints_length|]
  end.
  split; [exact H1|]. split; [exact H2|]. split; reflexivity.
Qed.

(** C8. For every batch item the resolved count is max(count, 1) >= 1; the
    item contributes that many matrices and that many vertex sets, each as
    long as the donor's vertex list, and its edge set and face set that many
    times unchanged; the outputs of the loop are the per-item contributions
    concatenated in the order of the items. *)
Theorem process_loop_outputs (self : Node) (items : list Item) :
  Forall (fun it => exists E,
            diameter (item_vertices it) (orient_axis self) = Ok E /\ E <> 0) items ->
  exists outs,
    Forall2 (item_outputs_ok self) items outs /\
    process_loop self items no_outputs = Ok (concat_outputs outs).
Proof.
  intros Hall.
  assert (Hex : exists outs, Forall2 (item_outputs_ok self) items outs).
  { induction Hall as [|it items [E [HE HE0]] _ [outs IH]].
    - exists []. constructor.
    - destruct (item_outputs_exist self it E HE HE0) as [o Ho].
      exists (o :: outs). constructor; assumption. }
  destruct Hex as [outs Houts]. exists outs. split; [exact Houts|].
  assert (Hbody : Forall2 (fun it o => process_body self no_outputs it = Ok o) items outs).
  { clear Hall. induction Houts as [|it o items outs Ho _ IH]; constructor; [|exact IH].
    destruct Ho as [c0 [count [_ [_ [_ [Hb _]]]]]]. exact Hb. }
  rewrite (process_loop_acc self items outs Hbody no_outputs).
  unfold append_outputs, no_outputs. reflexivity.
Qed.

Lemma process_loop_outputs_witness :
  let self := mkNode mode_down axis_X false true in
  let donor := [mkVector 0 0 0; mkVector 1 0 0] in
  let items := [mkItem donor [[0; 1]%Z] [] (mkVector 0 0 0) (mkVector 3.5 0 0) 1;
                mkItem donor [[0; 1]%Z] [] (mkVector 0 0 0) (mkVector 0 2 0) 1] in
  exists outs,
    Forall2 (item_outputs_ok self) items outs /\
    process_loop self items no_outputs = Ok (concat_outputs outs).
Proof.
  intros self donor items.
  apply (process_loop_outputs self items).
  assert (Hd : exists E, diameter donor (orient_axis self) = Ok E /\ E <> 0).
  { exists 1. split; [apply diameter_unit_donor; reflexivity|lra]. }
  repeat constructor; exact Hd.
Defined.

(* ================================================================== *)
(** ** The broadcast aligner *)

Section Aligner.

Context {A : Type}.

Lemma nth_length_pred_last (l : list A) (d : A) :
  l <> [] -> nth (List.length l - 1) l d = last l d.
Proof.
  induction l as [|a [|b l] IH]; intros H.
  - contradiction.
  - reflexivity.
  - specialize (IH ltac:(discriminate)).
    replace (List.length (a :: b :: l) - 1)%nat with (S (List.length l))
      by (simpl; lia).
    replace (List.length (b :: l) - 1)%nat with (List.length l) in IH
      by (simpl; lia).
    exact IH.
Qed.

Lemma length_le_max_length (lsts : list (list A)) (l : list A) :
  In l lsts -> (List.length l <= max_length lsts)%nat.
Proof.
  unfold max_length. induction lsts as [|l' lsts IH]; intros Hin.
  - contradiction.
  - simpl. destruct Hin as [->|Hin]; [lia|]. specialize (IH Hin). lia.
Qed.

Lemma max_length_attained (lsts : list (list A)) :
  lsts <> [] -> exists l, In l lsts /\ List.length l = max_length lsts.
Proof.
  unfold max_length. induction lsts as [|l' lsts IH]; intros H; [contradiction|].
  destruct lsts as [|l'' lsts].
  - exists l'. split; [left; reflexivity|]. simpl. lia.
  - destruct IH as [l [Hin Hl]]; [discriminate|].
    cbn [map fold_right] in *.
    destruct (Nat.max_spec (List.length l')
                (Nat.max (List.length l'') (fold_right Nat.max 0%nat (map (@List.length A) lsts))))
      as [[_ Hm]|[_ Hm]]; rewrite Hm.
    + exists l. split; [right; exact Hin|exact Hl].
    + exists l'. split; [left; reflexivity|reflexivity].
Qed.

Lemma align_to_spec (max_l : nat) (l : list A) (d : A) :
  l <> [] ->
  exists r, align_to max_l l = Ok r /\
    List.length r = max_l /\
    (forall p, (p < max_l)%nat ->
       nth p r d = nth (Nat.min p (List.length l - 1)) l d) /\
    ((List.length l <= max_l)%nat ->
       r = l ++ repeat (last l d) (max_l - List.length l)).
Proof.
  intros Hl. destruct l as [|a l0] eqn:El; [contradiction|]. rewrite <- El in *.
  assert (Hlen : (0 < List.length l)%nat) by (rewrite El; simpl; lia).
  assert (Hnth : forall p, (p < max_l)%nat ->
            nth p (map (fun p => nth (Nat.min p (List.length l - 1)) l a) (seq 0 max_l)) d
            = nth (Nat.min p (List.length l - 1)) l d).
  { intros p Hp.
    rewrite (nth_indep _ d (nth (Nat.min 0 (List.length l - 1)) l a))
      by (rewrite length_map, length_seq; exact Hp).
    rewrite (map_nth (fun p => nth (Nat.min p (List.length l - 1)) l a)).
    rewrite seq_nth by exact Hp. apply nth_indep. lia. }
  eexists. split; [unfold align_to; rewrite El at 1; reflexivity|].
  split; [rewrite length_map, length_seq; reflexivity|].
  split; [exact Hnth|].
  intros Hle. apply (nth_ext _ _ d d).
  - rewrite length_map, length_seq, length_app, repeat_length. lia.
  - intros p Hp. rewrite length_map, length_seq in Hp. rewrite (Hnth p Hp).
    destruct (Nat.lt_ge_cases p (List.length l)) as [Hlt|Hge].
    + rewrite app_nth1 by exact Hlt. f_equal. lia.
    + rewrite app_nth2 by exact Hge.
      rewrite nth_repeat_lt by lia.
      rewrite Nat.min_r by lia. apply nth_length_pred_last, Hl.
Qed.

Lemma mapM_align_ok (max_l : nat) (lsts : list (list A)) (d : A) :
  Forall (fun l => l <> []) lsts ->
  exists res, mapM (align_to max_l) lsts = Ok res /\
              Forall2 (fun l r => align_to max_l l = Ok r) lsts res.
Proof.
  induction 1 as [|l lsts Hl _ [res [IH1 IH2]]].
  - exists []. split; [reflexivity|constructor].
  - destruct (align_to_spec max_l l d Hl) as [r [Hr _]].
    exists (r :: res). split.
    + cbn [mapM]. rewrite Hr. cbn [bind]. rewrite IH1. reflexivity.
    + constructor; assumption.
Qed.

Lemma mapM_align_empty (max_l : nat) (lsts : list (list A)) :
  Exists (fun l => l = []) lsts ->
  mapM (align_to max_l) lsts = Raise EmptyInputError.
Proof.
  induction 1 as [l lsts ->|l lsts _ IH].
  - reflexivity.
  - cbn [mapM]. destruct l as [|a l]; [reflexivity|].
    unfold align_to at 1. cbn [bind]. rewrite IH. reflexivity.
Qed.

Lemma Forall2_align_to (n : nat) (ls res : list (list A)) (d : A) :
  (forall l, In l ls -> (List.length l <= n)%nat) ->
  Forall (fun l => l <> []) ls ->
  Forall2 (fun l r => align_to n l = Ok r) ls res ->
  Forall2 (fun l r =>
             List.length r = n /\
             (forall p, (p < n)%nat ->
                nth p r d = nth (Nat.min p (List.length l - 1)) l d) /\
             r = l ++ repeat (last l d) (n - List.length l))
          ls res.
Proof.
  intros Hle Hne Hall. induction Hall as [|l r ls res Hr _ IH].
  - constructor.
  - inversion Hne as [|? ? Hl Hne']; subst.
    constructor.
    + destruct (align_to_spec n l d Hl) as [r' [Hr' [H1 [H2 H3]]]].
      rewrite Hr in Hr'. injection Hr' as <-.
      split; [exact H1|]. split; [exact H2|].
      apply H3, Hle. left; reflexivity.
    + apply IH; [|exact Hne']. intros l' Hin. apply Hle. right; exact Hin.
Qed.

(** C9. On K sequences that are all non-empty the aligner returns K
    sequences of the maximal input length, sequence i holding
    input_i[min(p, L_i - 1)] at position p, which is input_i followed by
    copies of its last element; it fails with EmptyInputError when some
    input is empty; inputs of lengths 1, 3, 1 are aligned to length 3 by
    repeating the sole element of the short ones. *)
Theorem match_long_repeat_contract (lsts : list (list A)) (d : A) :
  (Forall (fun l => l <> []) lsts ->
   exists res,
     match_long_repeat lsts = Ok res /\
     Forall2 (fun l r =>
                List.length r = max_length lsts /\
                (forall p, (p < max_length lsts)%nat ->
                   nth p r d = nth (Nat.min p (List.length l - 1)) l d) /\
                r = l ++ repeat (last l d) (max_length lsts - List.length l))
             lsts res) /\
  (Exists (fun l => l = []) lsts -> match_long_repeat lsts = Raise EmptyInputError) /\
  (forall l, In l lsts -> (List.length l <= max_length lsts)%nat) /\
  (lsts <> [] -> exists l, In l lsts /\ List.length l = max_length lsts) /\
  (forall a b1 b2 b3 c : A,
     match_long_repeat [[a]; [b1; b2; b3]; [c]]
     = Ok [[a; a; a]; [b1; b2; b3]; [c; c; c]]).
Proof.
  split; [|split; [|split; [|split]]].
  - intros Hne. unfold match_long_repeat.
    destruct (mapM_align_ok (max_length lsts) lsts d Hne) as [res [Hres Hall]].
    exists res. split; [exact Hres|].
    apply (Forall2_align_to (max_length lsts) lsts res d);
      [apply length_le_max_length|exact Hne|exact Hall].
  - apply mapM_align_empty.
  - apply length_le_max_length.
  - apply max_length_attained.
  - intros. reflexivity.
Qed.

End Aligner.

Lemma match_long_repeat_contract_witness :
  exists res,
    match_long_repeat [[7%Z]; [1%Z; 2%Z; 3%Z]; [9%Z]] = Ok res /\
    List.length res = 3%nat.
Proof.
  destruct (match_long_repeat_contract [[7%Z]; [1%Z; 2%Z; 3%Z]; [9%Z]] 0%Z)
    as [H _].
  destruct H as [res [Hres Hall]].
  - repeat constructor; discriminate.
  - exists res. split; [exact Hres|].
    apply Forall2_length in Hall. symmetry. exact Hall.
Defined.

(* ================================================================== *)
(** ** Further properties of the orientation matrices *)

(** X1. As the docstring of [autorotate] says, the matrix transforms the
    vector xx into e1: for a unit vector e1 it sends xx to |xx| * e1. *)
Theorem autorotate_sends_direction_to_axis (e1 xx : Vector) :
  dot e1 e1 = 1 ->
  mul_vec (autorotate e1 xx) xx = vscale (Vector_length xx) e1.
Proof.
  intros He. unfold autorotate.
  pose proof (Vector_length_sqr xx) as Ha.
  set (alpha := Vector_length xx) in *.
  set (u := vsub xx (vscale alpha e1)).
  unfold normalized. destruct (Req_dec_T (Vector_length u) 0) as [E|N].
  - apply Vector_length_zero_iff in E. rewrite householder_zero.
    clearbody alpha. destruct xx as [dx dy dz], e1 as [ex ey ez].
    unfold u, vsub, vscale, zero_vector in E. simpl in E. injection E as E1 E2 E3.
    apply vector_eq; unfold_matrix; unfold vscale; simpl; lra.
  - pose proof (Vector_length_sqr u) as Hn.
    pose proof (Rinv_l _ N) as Hin.
    set (n := Vector_length u) in *. set (i_n := / n) in *.
    clearbody i_n n alpha.
    destruct xx as [dx dy dz], e1 as [ex ey ez]. unfold u, dot in *.
    unfold vsub, vscale in *; simpl in *.
    apply vector_eq; unfold_matrix; unfold vscale; simpl; nsatz.
Qed.

Lemma autorotate_sends_direction_to_axis_witness :
  dot (mkVector 0 0 1) (mkVector 0 0 1) = 1 /\
  mul_vec (autorotate (mkVector 0 0 1) (mkVector 3 4 0)) (mkVector 3 4 0)
  = vscale (Vector_length (mkVector 3 4 0)) (mkVector 0 0 1).
Proof.
  assert (H : dot (mkVector 0 0 1) (mkVector 0 0 1) = 1) by (unfold dot; simpl; ring).
  split; [exact H|].
  apply (autorotate_sends_direction_to_axis (mkVector 0 0 1) (mkVector 3 4 0) H).
Defined.

(** X2. Whatever the two vectors, the matrix of [autorotate] is symmetric
    and is its own inverse: multiplied by itself it gives the identity. *)
Theorem autorotate_symmetric_involution (e1 xx : Vector) :
  transpose (autorotate e1 xx) = autorotate e1 xx /\
  mmul (autorotate e1 xx) (autorotate e1 xx) = identity /\
  mmul (transpose (autorotate e1 xx)) (autorotate e1 xx) = identity.
Proof.
  assert (Hs : transpose (autorotate e1 xx) = autorotate e1 xx).
  { unfold autorotate. generalize (normalized (vsub xx (vscale (Vector_length xx) e1))).
    intros [x y z]. unfold transpose. unfold_matrix. matrix_ext; ring. }
  assert (Hi : mmul (autorotate e1 xx) (autorotate e1 xx) = identity)
    by (apply inverted_right, inverted_autorotate).
  split; [exact Hs|]. split; [exact Hi|]. rewrite Hs. exact Hi.
Qed.

(** X3. For a unit vector u the matrix [householder u] is the reflection in
    the plane orthogonal to u: it sends u to -u and fixes every vector
    orthogonal to u. *)
Theorem householder_reflects (u w : Vector) :
  dot u u = 1 ->
  mul_vec (householder u) u = vscale (-1) u /\
  (dot u w = 0 -> mul_vec (householder u) w = w).
Proof.
  destruct u as [x y z], w as [a b c]. unfold dot; simpl. intros Hu. split.
  - apply vector_eq; unfold_matrix; unfold vscale; simpl; nsatz.
  - intros Hw. apply vector_eq; unfold_matrix; simpl; nsatz.
Qed.

Lemma householder_reflects_witness :
  dot (mkVector 0 1 0) (mkVector 0 1 0) = 1 /\
  mul_vec (householder (mkVector 0 1 0)) (mkVector 0 1 0) = vscale (-1) (mkVector 0 1 0).
Proof.
  assert (H : dot (mkVector 0 1 0) (mkVector 0 1 0) = 1) by (unfold dot; simpl; ring).
  split; [exact H|].
  apply (householder_reflects (mkVector 0 1 0) (mkVector 0 0 0) H).
Defined.

(* ================================================================== *)
(** ** The extent of the donor *)

Lemma Vector_getitem_component (v : Vector) (axis : nat) :
  (axis < 3)%nat -> Vector_getitem v axis = Ok (component axis v).
Proof.
  intros H. destruct axis as [|[|[|axis]]]; try reflexivity. lia.
Qed.

Lemma Vector_getitem_out_of_range (v : Vector) (axis : nat) :
  (3 <= axis)%nat -> Vector_getitem v axis = Raise IndexError.
Proof.
  intros H. destruct axis as [|[|[|axis]]]; try lia.
  unfold Vector_getitem, getitem. simpl. destruct axis; reflexivity.
Qed.

Lemma mapM_components (vertices : list Vector) (axis : nat) :
  (axis < 3)%nat ->
  mapM (fun vertex => Vector_getitem vertex axis) vertices
  = Ok (map (component axis) vertices).
Proof.
  intros H. induction vertices as [|v vs IH]; [reflexivity|].
  cbn [mapM map]. rewrite (Vector_getitem_component v axis H). cbn [bind].
  rewrite IH. reflexivity.
Qed.

Lemma fold_Rmax_bounds (l : list R) (x : R) :
  x <= fold_left Rmax l x /\
  (forall y, In y l -> y <= fold_left Rmax l x) /\
  (fold_left Rmax l x = x \/ In (fold_left Rmax l x) l).
Proof.
  revert x. induction l as [|a l IH]; intros x; simpl.
  - split; [lra|]. split; [contradiction|left; reflexivity].
  - destruct (IH (Rmax x a)) as [H1 [H2 H3]].
    assert (Hx : x <= Rmax x a /\ a <= Rmax x a)
      by (unfold Rmax; destruct (Rle_dec x a); lra).
    split; [lra|]. split.
    + intros y [<-|Hy]; [lra|apply H2, Hy].
    + destruct H3 as [H3|H3]; [|right; right; exact H3].
      rewrite H3. unfold Rmax. destruct (Rle_dec x a); [right; left|left]; reflexivity.
Qed.

Lemma fold_Rmin_bounds (l : list R) (x : R) :
  fold_left Rmin l x <= x /\
  (forall y, In y l -> fold_left Rmin l x <= y) /\
  (fold_left Rmin l x = x \/ In (fold_left Rmin l x) l).
Proof.
  revert x. induction l as [|a l IH]; intros x; simpl.
  - split; [lra|]. split; [contradiction|left; reflexivity].
  - destruct (IH (Rmin x a)) as [H1 [H2 H3]].
    assert (Hx : Rmin x a <= x /\ Rmin x a <= a)
      by (unfold Rmin; destruct (Rle_dec x a); lra).
    split; [lra|]. split.
    + intros y [<-|Hy]; [lra|apply H2, Hy].
    + destruct H3 as [H3|H3]; [|right; right; exact H3].
      rewrite H3. unfold Rmin. destruct (Rle_dec x a); [left|right; left]; reflexivity.
Qed.

Lemma py_max_spec (xs : list R) :
  xs <> [] ->
  exists M, py_max xs = Ok M /\ In M xs /\ forall y, In y xs -> y <= M.
Proof.
  destruct xs as [|x l]; [contradiction|]. intros _.
  destruct (fold_Rmax_bounds l x) as [H1 [H2 H3]].
  exists (fold_left Rmax l x). split; [reflexivity|]. split.
  - destruct H3 as [H3|H3]; [left; symmetry; exact H3|right; exact H3].
  - intros y [<-|Hy]; [exact H1|apply H2, Hy].
Qed.

Lemma py_min_spec (xs : list R) :
  xs <> [] ->
  exists m, py_min xs = Ok m /\ In m xs /\ forall y, In y xs -> m <= y.
Proof.
  destruct xs as [|x l]; [contradiction|]. intros _.
  destruct (fold_Rmin_bounds l x) as [H1 [H2 H3]].
  exists (fold_left Rmin l x). split; [reflexivity|]. split.
  - destruct H3 as [H3|H3]; [left; symmetry; exact H3|right; exact H3].
  - intros y [<-|Hy]; [exact H1|apply H2, Hy].
Qed.

Lemma diameter_is_coordinate_spread_aux (vertices : list Vector) (axis : nat) :
  vertices <> [] -> (axis < 3)%nat ->
  exists E,
    diameter vertices axis = Ok E /\ 0 <= E /\
    (forall v w, In v vertices -> In w vertices ->
       component axis v - component axis w <= E) /\
    (exists v w, In v vertices /\ In w vertices /\
                 E = component axis v - component axis w).
Proof.
  intros Hne Hax. unfold diameter. rewrite (mapM_components vertices axis Hax).
  cbn [bind].
  assert (Hxs : map (component axis) vertices <> [])
    by (destruct vertices; [contradiction|discriminate]).
  destruct (py_max_spec _ Hxs) as [M [HM [HMin HMub]]].
  destruct (py_min_spec _ Hxs) as [m [Hm [Hmin Hmlb]]].
  rewrite HM. cbn [bind]. rewrite Hm. cbn [bind].
  exists (M - m). split; [reflexivity|].
  split; [specialize (HMub m Hmin); lra|]. split.
  - intros v w Hv Hw.
    specialize (HMub _ (in_map (component axis) _ _ Hv)).
    specialize (Hmlb _ (in_map (component axis) _ _ Hw)). lra.
  - apply in_map_iff in HMin. destruct HMin as [v [Hv Hvin]].
    apply in_map_iff in Hmin. destruct Hmin as [w [Hw Hwin]].
    exists v, w. split; [exact Hvin|]. split; [exact Hwin|].
    rewrite Hv, Hw. reflexivity.
Qed.

(** X4. For a non-empty vertex list and an axis 0, 1 or 2, [diameter]
    returns a number E >= 0 that bounds the difference of the coordinates of
    any two vertices on that axis and is attained by two of the vertices. *)
Theorem diameter_is_coordinate_spread (vertices : list Vector) (axis : nat) :
  vertices <> [] -> (axis < 3)%nat ->
  exists E,
    diameter vertices axis = Ok E /\ 0 <= E /\
    (forall v w, In v vertices -> In w vertices ->
       component axis v - component axis w <= E) /\
    (exists v w, In v vertices /\ In w vertices /\
                 E = component axis v - component axis w).
Proof. apply diameter_is_coordinate_spread_aux. Qed.

Lemma diameter_is_coordinate_spread_witness :
  exists E, diameter [mkVector 0 5 0; mkVector 1 2 0; mkVector 2 9 0] 1 = Ok E /\ 0 <= E.
Proof.
  destruct (diameter_is_coordinate_spread
              [mkVector 0 5 0; mkVector 1 2 0; mkVector 2 9 0] 1)
    as [E [H1 [H2 _]]]; [discriminate|lia|].
  exists E. split; [exact H1|exact H2].
Defined.

(** X5. [diameter] of an empty vertex list raises ValueError (from [max]),
    whatever the axis; on a non-empty list an axis index of 3 or more
    raises IndexError. *)
Theorem diameter_errors (vertices : list Vector) (axis : nat) :
  diameter [] axis = Raise ValueError /\
  (vertices <> [] -> (3 <= axis)%nat -> diameter vertices axis = Raise IndexError).
Proof.
  split; [reflexivity|].
  intros Hne Hax. destruct vertices as [|v vs]; [contradiction|].
  unfold diameter. cbn [mapM]. rewrite (Vector_getitem_out_of_range v axis Hax).
  reflexivity.
Qed.

Lemma fold_Rmax_shift (c : R) (l : list R) (x : R) :
  fold_left Rmax (map (Rplus c) l) (c + x) = c + fold_left Rmax l x.
Proof.
  revert x. induction l as [|a l IH]; intros x; simpl; [reflexivity|].
  rewrite <- IH. f_equal. unfold Rmax.
  destruct (Rle_dec (c + x) (c + a)), (Rle_dec x a); lra.
Qed.

Lemma fold_Rmin_shift (c : R) (l : list R) (x : R) :
  fold_left Rmin (map (Rplus c) l) (c + x) = c + fold_left Rmin l x.
Proof.
  revert x. induction l as [|a l IH]; intros x; simpl; [reflexivity|].
  rewrite <- IH. f_equal. unfold Rmin.
  destruct (Rle_dec (c + x) (c + a)), (Rle_dec x a); lra.
Qed.

(** X6. Moving the donor does not change its extent: [diameter] gives the
    same result, or raises the same exception, after every vertex has been
    translated by the same vector. *)
Theorem diameter_translation_invariant (t : Vector) (vertices : list Vector)
    (axis : nat) :
  diameter (map (vadd t) vertices) axis = diameter vertices axis.
Proof.
  destruct (Nat.lt_ge_cases axis 3) as [Hax|Hax].
  - unfold diameter. rewrite !(mapM_components _ axis Hax). cbn [bind].
    rewrite map_map.
    replace (map (fun x => component axis (vadd t x)) vertices)
      with (map (Rplus (component axis t)) (map (component axis) vertices)).
    + destruct (map (component axis) vertices) as [|x l]; [reflexivity|].
      cbn [map py_max py_min bind].
      rewrite fold_Rmax_shift, fold_Rmin_shift. f_equal. ring.
    + rewrite map_map. apply map_ext. intros v.
      destruct axis as [|[|[|axis]]]; reflexivity.
  - destruct vertices as [|v vs]; [reflexivity|].
    unfold diameter. cbn [map mapM].
    rewrite !(Vector_getitem_out_of_range _ axis Hax). reflexivity.
Qed.

(* ================================================================== *)
(** ** Counts and scale factors *)

Lemma Zfloor_Zceil (x : R) :
  (Zfloor x <= Zceil x <= Zfloor x + 1)%Z.
Proof.
  pose proof (Zfloor_bound x) as [F1 F2]. pose proof (Zceil_bound x) as [C1 C2].
  split.
  - apply le_IZR. lra.
  - assert (H : (Zceil x < Zfloor x + 2)%Z); [|lia].
    apply lt_IZR. rewrite plus_IZR. lra.
Qed.

Lemma div_ge_1 (q c : R) : 0 < c -> c <= q -> 1 <= q / c.
Proof.
  intros Hc Hq. unfold Rdiv. replace 1 with (c * / c) by (field; lra).
  apply Rmult_le_compat_r; [left; apply Rinv_0_lt_compat, Hc|exact Hq].
Qed.

Lemma div_le_1 (q c : R) : 0 < c -> q <= c -> q / c <= 1.
Proof.
  intros Hc Hq. unfold Rdiv. replace 1 with (c * / c) by (field; lra).
  apply Rmult_le_compat_r; [left; apply Rinv_0_lt_compat, Hc|exact Hq].
Qed.

Lemma div_lt (q c b : R) : 0 < c -> q < b * c -> q / c < b.
Proof.
  intros Hc Hq. unfold Rdiv. replace b with (b * c * / c) by (field; lra).
  apply Rmult_lt_compat_r; [apply Rinv_0_lt_compat, Hc|exact Hq].
Qed.

(** X7. For a donor of positive extent the count of mode "up" and the count
    of mode "down" are both non-negative and differ by at most one, the
    count of mode "down" being the larger. *)
Theorem count_up_down_adjacent (self : Node) (v1 v2 : Vector)
    (vertices : list Vector) (count : Z) (E : R) :
  diameter vertices (orient_axis self) = Ok E -> 0 < E ->
  exists a b,
    count_up self v1 v2 vertices count = Ok a /\
    count_down self v1 v2 vertices count = Ok b /\
    (0 <= a)%Z /\ (a <= b)%Z /\ (b <= a + 1)%Z.
Proof.
  intros HE HE0. assert (HEn : E <> 0) by lra.
  set (q := Vector_length (vsub v2 v1) / E).
  exists (Zfloor q), (Zceil q).
  split; [apply (count_up_floor _ _ _ _ _ _ HE HEn)|].
  split; [apply (count_down_ceil _ _ _ _ _ _ HE HEn)|].
  assert (Hq : 0 <= q).
  { unfold q, Rdiv. apply Rmult_le_pos; [apply Vector_length_nonneg|].
    left. apply Rinv_0_lt_compat, HE0. }
  split; [apply (Zfloor_lub 0 q); exact Hq|].
  apply Zfloor_Zceil.
Qed.

Lemma count_up_down_adjacent_witness :
  let self := mkNode mode_up axis_X false true in
  0 < 1 /\
  exists a b,
    count_up self (mkVector 0 0 0) (mkVector 3.5 0 0)
             [mkVector 0 0 0; mkVector 1 0 0] 1 = Ok a /\
    count_down self (mkVector 0 0 0) (mkVector 3.5 0 0)
               [mkVector 0 0 0; mkVector 1 0 0] 1 = Ok b /\
    (a <= b)%Z.
Proof.
  intros self. split; [lra|].
  destruct (count_up_down_adjacent self (mkVector 0 0 0) (mkVector 3.5 0 0)
              [mkVector 0 0 0; mkVector 1 0 0] 1 1)
    as [a [b [H1 [H2 [_ [H4 _]]]]]].
  - apply diameter_unit_donor. reflexivity.
  - lra.
  - exists a, b. split; [exact H1|]. split; [exact H2|exact H4].
Defined.

(** X8. Mode "up" ("scaling them only up"): when the segment is at least as
    long as the donor, the count is at least 1, is left alone by the clamp,
    and the scale factor x_scale = length / count / extent lies in [1, 2).
    When the segment is shorter than the donor the count is 0, the clamp
    makes it 1, and the scale factor is below 1. *)
Theorem up_mode_scale_factor (self : Node) (v1 v2 : Vector)
    (vertices : list Vector) (count : Z) (E : R) :
  count_mode self = mode_up ->
  diameter vertices (orient_axis self) = Ok E -> 0 < E ->
  let L := Vector_length (vsub v2 v1) in
  exists c,
    get_count self v1 v2 vertices count = Ok c /\
    (E <= L ->
       (1 <= c)%Z /\ Z.max c 1 = c /\
       1 <= L / IZR (Z.max c 1) / E < 2) /\
    (L < E ->
       c = 0%Z /\ Z.max c 1 = 1%Z /\ L / IZR (Z.max c 1) / E < 1).
Proof.
  intros Hm HE HE0 L. assert (HEn : E <> 0) by lra.
  exists (Zfloor (L / E)). split.
  { unfold get_count. rewrite Hm. apply (count_up_floor _ _ _ _ _ _ HE HEn). }
  pose proof (Zfloor_bound (L / E)) as [F1 F2].
  pose proof (Vector_length_nonneg (vsub v2 v1)) as HL. fold L in HL.
  split.
  - intros HLE.
    assert (Hq : 1 <= L / E) by (apply div_ge_1; assumption).
    assert (Hc : (1 <= Zfloor (L / E))%Z) by (apply (Zfloor_lub 1); exact Hq).
    split; [exact Hc|]. split; [lia|].
    replace (Z.max (Zfloor (L / E)) 1) with (Zfloor (L / E)) by lia.
    assert (Hc0 : 1 <= IZR (Zfloor (L / E))) by (apply IZR_le in Hc; exact Hc).
    replace (L / IZR (Zfloor (L / E)) / E) with (L / E / IZR (Zfloor (L / E)))
      by (field; split; lra).
    split; [apply div_ge_1; lra|apply div_lt; lra].
  - intros HLE.
    assert (Hq : L / E < 1).
    { apply div_lt; lra. }
    assert (Hq0 : 0 <= L / E).
    { unfold Rdiv. apply Rmult_le_pos; [exact HL|].
      left. apply Rinv_0_lt_compat, HE0. }
    assert (Hc : Zfloor (L / E) = 0%Z) by (apply Zfloor_eq; simpl; lra).
    rewrite Hc. split; [reflexivity|]. split; [reflexivity|].
    change (Z.max 0 1) with 1%Z.
    replace (L / 1 / E) with (L / E) by (field; lra). exact Hq.
Qed.

Lemma up_mode_scale_factor_witness :
  let self := mkNode mode_up axis_X false true in
  count_mode self = mode_up /\ 0 < 1 /\
  exists c, get_count self (mkVector 0 0 0) (mkVector 3.5 0 0)
                      [mkVector 0 0 0; mkVector 1 0 0] 1 = Ok c.
Proof.
  intros self. split; [reflexivity|]. split; [lra|].
  destruct (up_mode_scale_factor self (mkVector 0 0 0) (mkVector 3.5 0 0)
              [mkVector 0 0 0; mkVector 1 0 0] 1 1) as [c [H _]].
  - reflexivity.
  - apply diameter_unit_donor. reflexivity.
  - lra.
  - exists c. exact H.
Defined.

(** X9. Mode "down" ("scaling them only down"): for a segment of positive
    length the count is at least 1, is left alone by the clamp, and the
    scale factor x_scale = length / count / extent lies in (0, 1]. *)
Theorem down_mode_scale_factor (self : Node) (v1 v2 : Vector)
    (vertices : list Vector) (count : Z) (E : R) :
  count_mode self = mode_down ->
  diameter vertices (orient_axis self) = Ok E -> 0 < E ->
  let L := Vector_length (vsub v2 v1) in
  0 < L ->
  exists c,
    get_count self v1 v2 vertices count = Ok c /\
    (1 <= c)%Z /\ Z.max c 1 = c /\
    0 < L / IZR (Z.max c 1) / E <= 1.
Proof.
  intros Hm HE HE0 L HL. assert (HEn : E <> 0) by lra.
  exists (Zceil (L / E)). split.
  { unfold get_count. rewrite Hm. apply (count_down_ceil _ _ _ _ _ _ HE HEn). }
  pose proof (Zceil_bound (L / E)) as [C1 C2].
  assert (Hq : 0 < L / E).
  { unfold Rdiv. apply Rmult_lt_0_compat; [exact HL|apply Rinv_0_lt_compat, HE0]. }
  assert (Hc : (1 <= Zceil (L / E))%Z).
  { assert (H : (0 < Zceil (L / E))%Z); [|lia]. apply lt_IZR. lra. }
  split; [exact Hc|]. split; [lia|].
  replace (Z.max (Zceil (L / E)) 1) with (Zceil (L / E)) by lia.
  assert (Hc0 : 1 <= IZR (Zceil (L / E))) by (apply IZR_le in Hc; exact Hc).
  replace (L / IZR (Zceil (L / E)) / E) with (L / E / IZR (Zceil (L / E)))
    by (field; split; lra).
  split.
  - unfold Rdiv at 1. apply Rmult_lt_0_compat; [exact Hq|].
    apply Rinv_0_lt_compat. lra.
  - apply div_le_1; lra.
Qed.

Lemma down_mode_scale_factor_witness :
  let self := mkNode mode_down axis_X false true in
  count_mode self = mode_down /\ 0 < 1 /\
  exists c, get_count self (mkVector 0 0 0) (mkVector 3.5 0 0)
                      [mkVector 0 0 0; mkVector 1 0 0] 1 = Ok c /\ (1 <= c)%Z.
Proof.
  intros self. split; [reflexivity|]. split; [lra|].
  destruct (down_mode_scale_factor self (mkVector 0 0 0) (mkVector 3.5 0 0)
              [mkVector 0 0 0; mkVector 1 0 0] 1 1) as [c [H1 [H2 _]]].
  - reflexivity.
  - apply diameter_unit_donor. reflexivity.
  - lra.
  - rewrite Vector_length_along_X; lra.
  - exists c. split; [exact H1|exact H2].
Defined.

(* ================================================================== *)
(** ** Failures of placement *)

Lemma process_body_zero_extent (self : Node) (acc : Outputs) (it : Item) :
  diameter (item_vertices it) (orient_axis self) = Ok 0 ->
  process_body self acc it = Raise ZeroDivisionError.
Proof.
  intros HE. unfold process_body.
  destruct (count_mode self) eqn:Hm.
  - unfold get_count. rewrite Hm. cbn [count_funcs count_const bind].
    rewrite (duplicate_vertices_zero_extent _ _ _ _ _ _ _ HE). reflexivity.
  - rewrite get_count_zero_extent by (try exact HE; rewrite Hm; discriminate).
    reflexivity.
  - rewrite get_count_zero_extent by (try exact HE; rewrite Hm; discriminate).
    reflexivity.
  - rewrite get_count_zero_extent by (try exact HE; rewrite Hm; discriminate).
    reflexivity.
Qed.

Lemma orient_axis_lt_3 (self : Node) : (orient_axis self < 3)%nat.
Proof. unfold orient_axis, get_axis_idx. destruct (orient_axis_ self); lia. Qed.

(** X10. A donor that is flat along the orientation axis (all its vertices
    have the same coordinate there, as for a donor of a single vertex) has
    extent 0, and the loop body then raises ZeroDivisionError in every count
    mode. *)
Theorem flat_donor_fails (self : Node) (acc : Outputs) (it : Item) (c : R) :
  item_vertices it <> [] ->
  (forall v, In v (item_vertices it) -> component (orient_axis self) v = c) ->
  diameter (item_vertices it) (orient_axis self) = Ok 0 /\
  process_body self acc it = Raise ZeroDivisionError.
Proof.
  intros Hne Hflat.
  assert (HE : diameter (item_vertices it) (orient_axis self) = Ok 0).
  { destruct (diameter_is_coordinate_spread_aux (item_vertices it) (orient_axis self)
                Hne (orient_axis_lt_3 self)) as [E [HE [_ [_ [v [w [Hv [Hw HEq]]]]]]]].
    rewrite HE. f_equal. rewrite HEq, (Hflat v Hv), (Hflat w Hw). ring. }
  split; [exact HE|]. apply process_body_zero_extent, HE.
Qed.

Lemma flat_donor_fails_witness :
  let self := mkNode mode_count axis_Y true true in
  let it := mkItem [mkVector 1 2 3] [] [] (mkVector 0 0 0) (mkVector 1 0 0) 3 in
  item_vertices it <> [] /\
  process_body self no_outputs it = Raise ZeroDivisionError.
Proof.
  intros self it. split; [discriminate|].
  apply (flat_donor_fails self no_outputs it 2).
  - discriminate.
  - intros v [<-|[]]. reflexivity.
Defined.

(** X11. [duplicate_vertices] called with a count below 1: count 0 raises
    ZeroDivisionError whatever the other arguments; for a donor of non-zero
    extent, count -1 fails the assertion on the number of origins and a
    count below -1 raises ValueError (from [np.linspace]).  With a non-zero
    count an empty donor raises ValueError (from [max]). *)
Theorem duplicate_vertices_bad_count (self : Node) (v1 v2 : Vector)
    (vertices : list Vector) (edges : EdgeSet) (faces : FaceSet) (count : Z) (E : R) :
  duplicate_vertices self v1 v2 vertices edges faces 0 = Raise ZeroDivisionError /\
  (count <> 0%Z ->
   duplicate_vertices self v1 v2 [] edges faces count = Raise ValueError) /\
  (diameter vertices (orient_axis self) = Ok E -> E <> 0 ->
   duplicate_vertices self v1 v2 vertices edges faces (-1) = Raise AssertionError /\
   ((count < -1)%Z ->
    duplicate_vertices self v1 v2 vertices edges faces count = Raise ValueError)).
Proof.
  split; [|split].
  - unfold duplicate_vertices. rewrite float_div_zero. reflexivity.
  - intros Hc. unfold duplicate_vertices.
    rewrite float_div_ok by (apply not_0_IZR; exact Hc). reflexivity.
  - intros HE HE0. destruct (getitem_orient_axis self) as [x Hx]. split.
    + unfold duplicate_vertices.
      rewrite float_div_ok by lra. cbn [bind]. rewrite HE. cbn [bind].
      rewrite (float_div_ok _ _ HE0). cbn [bind]. rewrite Hx. cbn [bind].
      reflexivity.
    + intros Hc. unfold duplicate_vertices.
      rewrite float_div_ok by (apply not_0_IZR; lia). cbn [bind].
      rewrite HE. cbn [bind].
      rewrite (float_div_ok _ _ HE0). cbn [bind]. rewrite Hx. cbn [bind].
      unfold origins, Numpy.linspace.
      destruct (Z.ltb_spec (count + 1) 0) as [_|H]; [reflexivity|lia].
Qed.

Lemma duplicate_vertices_bad_count_witness :
  let self := mkNode mode_count axis_X false true in
  (3 <> 0)%Z /\
  duplicate_vertices self (mkVector 0 0 0) (mkVector 1 0 0) [] [] [] 3
  = Raise ValueError.
Proof.
  intros self. split; [lia|].
  destruct (duplicate_vertices_bad_count self (mkVector 0 0 0) (mkVector 1 0 0)
              [] [] [] 3 1) as [_ [H _]].
  apply H. lia.
Defined.

(* ================================================================== *)
(** ** The instance transforms as affine maps *)

Lemma mul_vec_Translation (o v : Vector) : mul_vec (Translation o) v = vadd o v.
Proof. destruct o, v. apply vector_eq; unfold_matrix; simpl; ring. Qed.

Lemma mul_vec_mmul (a b : Matrix) (v : Vector) :
  r3 b = mkRow 0 0 0 1 -> mul_vec (mmul a b) v = mul_vec a (mul_vec b v).
Proof.
  destruct a as [[a00 a01 a02 a03] [a10 a11 a12 a13] [a20 a21 a22 a23] [a30 a31 a32 a33]].
  destruct b as [[b00 b01 b02 b03] [b10 b11 b12 b13] [b20 b21 b22 b23] b3].
  destruct v as [x y z]. simpl. intros ->.
  apply vector_eq; unfold_matrix; simpl; ring.
Qed.

Lemma r3_mmul (a b : Matrix) :
  r3 a = mkRow 0 0 0 1 -> r3 b = mkRow 0 0 0 1 -> r3 (mmul a b) = mkRow 0 0 0 1.
Proof.
  destruct a as [a0 a1 a2 a3], b as [b0 b1 b2 b3]. simpl. intros -> ->.
  unfold row_mul; simpl. f_equal; ring.
Qed.

Lemma r3_householder (v : Vector) : r3 (householder v) = mkRow 0 0 0 1.
Proof. unfold_matrix. f_equal; ring. Qed.

Lemma r3_autorotate (e d : Vector) : r3 (autorotate e d) = mkRow 0 0 0 1.
Proof. apply r3_householder. Qed.

Lemma r3_scale_choice (b : bool) (s : R) (x : Vector) :
  r3 (if b then Scale s else Scale_axis s x) = mkRow 0 0 0 1.
Proof. destruct b; reflexivity. Qed.

Lemma nth_transforms_apply (self : Node) (x e d : Vector) (s : R)
    (os : list Vector) (k : nat) (p : Vector) :
  (k < List.length os)%nat ->
  mul_vec (nth k (transforms self x (autorotate e d) s os) identity) p
  = vadd (nth k os zero_vector) (linear_image self x (autorotate e d) s p) /\
  r3 (nth k (transforms self x (autorotate e d) s os) identity) = mkRow 0 0 0 1.
Proof.
  intros Hk. rewrite (nth_transforms self x _ s os k Hk). cbv zeta.
  unfold linear_image. destruct (scale_off self).
  - split.
    + rewrite mul_vec_mmul by reflexivity.
      rewrite mul_vec_mmul by apply r3_autorotate.
      apply mul_vec_Translation.
    + repeat apply r3_mmul; try reflexivity. apply r3_autorotate.
  - split.
    + rewrite mul_vec_mmul by reflexivity.
      rewrite mul_vec_mmul by apply r3_scale_choice.
      rewrite mul_vec_mmul by apply r3_autorotate.
      apply mul_vec_Translation.
    + repeat apply r3_mmul; try reflexivity;
        [apply r3_autorotate|apply r3_scale_choice].
Qed.

Lemma linear_image_zero (self : Node) (i : nat) (x e d : Vector) (s : R) :
  getitem all_axes i = Ok x ->
  linear_image self x (autorotate e d) s zero_vector = zero_vector.
Proof.
  intros Hx. unfold linear_image.
  assert (Hf : mul_vec flip zero_vector = zero_vector)
    by (apply vector_eq; unfold_matrix; simpl; ring).
  assert (Hr : mul_vec (autorotate e d) zero_vector = zero_vector).
  { unfold autorotate. generalize (normalized (vsub d (vscale (Vector_length d) e))).
    intros [a b c]. apply vector_eq; unfold_matrix; simpl; ring. }
  rewrite Hf. destruct (scale_off self); [exact Hr|].
  destruct (scale_all self).
  - rewrite mul_vec_Scale.
    replace (vscale s zero_vector) with zero_vector
      by (apply vector_eq; simpl; ring).
    exact Hr.
  - rewrite (mul_vec_Scale_axis i x s zero_vector Hx).
    replace (vadd zero_vector (vscale ((s - 1) * dot x zero_vector) x))
      with zero_vector.
    + exact Hr.
    + destruct x. apply vector_eq; unfold dot; simpl; ring.
Qed.

(** X12. Every matrix returned by [duplicate_vertices] is an affine map with
    last row (0, 0, 0, 1); the k-th one sends the donor's own origin to the
    k-th placement origin, and any two of them differ only by the
    translation between their origins. *)
Theorem instances_are_translates (self : Node) (v1 v2 : Vector)
    (vertices : list Vector) (edges : EdgeSet) (faces : FaceSet) (count : Z) (E : R) :
  (1 <= count)%Z ->
  diameter vertices (orient_axis self) = Ok E -> E <> 0 ->
  let direction := vsub v2 v1 in
  exists os matrices rv,
    origins v1 direction (Vector_length direction / IZR count)
            (normalized direction) count = Ok os /\
    duplicate_vertices self v1 v2 vertices edges faces count = Ok (matrices, rv) /\
    forall k, (k < Z.to_nat count)%nat ->
      r3 (nth k matrices identity) = mkRow 0 0 0 1 /\
      mul_vec (nth k matrices identity) zero_vector = nth k os zero_vector /\
      forall j p, (j < Z.to_nat count)%nat ->
        vsub (mul_vec (nth k matrices identity) p) (mul_vec (nth j matrices identity) p)
        = vsub (nth k os zero_vector) (nth j os zero_vector).
Proof.
  intros Hc HE HE0 direction.
  destruct (getitem_orient_axis self) as [x Hx].
  exists (midpoints v1 direction count).
  exists (transforms self x (autorotate x direction)
            (Vector_length direction / IZR count / E)
            (midpoints v1 direction count)).
  eexists.
  split; [apply origins_spec, Hc|].
  split; [apply (duplicate_vertices_ok self v1 v2 vertices edges faces count E x Hc HE HE0 Hx)|].
  intros k Hk.
  assert (Hk' : (k < List.length (midpoints v1 direction count))%nat)
    by (rewrite midpoints_length; exact Hk).
  split; [apply (nth_transforms_apply self x x direction _ _ k zero_vector Hk')|].
  split.
  - destruct (nth_transforms_apply self x x direction
                (Vector_length direction / IZR count / E)
                (midpoints v1 direction count) k zero_vector Hk') as [H _].
    rewrite H, (linear_image_zero self (orient_axis self) x x direction _ Hx).
    apply vector_eq; simpl; ring.
  - intros j p Hj.
    assert (Hj' : (j < List.length (midpoints v1 direction count))%nat)
      by (rewrite midpoints_length; exact Hj).
    destruct (nth_transforms_apply self x x direction
                (Vector_length direction / IZR count / E)
                (midpoints v1 direction count) k p Hk') as [H1 _].
    destruct (nth_transforms_apply self x x direction
                (Vector_length direction / IZR count / E)
                (midpoints v1 direction count) j p Hj') as [H2 _].
    rewrite H1, H2. apply vector_eq; simpl; ring.
Qed.

Lemma instances_are_translates_witness :
  let self := mkNode mode_count axis_X true true in
  (1 <= 2)%Z /\ (1 : R) <> 0 /\
  exists matrices rv,
    duplicate_vertices self (mkVector 0 0 0) (mkVector 0 4 0)
                       [mkVector 0 0 0; mkVector 1 0 0] [] [] 2 = Ok (matrices, rv) /\
    r3 (nth 0 matrices identity) = mkRow 0 0 0 1.
Proof.
  intros self. split; [lia|]. split; [lra|].
  destruct (instances_are_translates self (mkVector 0 0 0) (mkVector 0 4 0)
              [mkVector 0 0 0; mkVector 1 0 0] [] [] 2 1)
    as [os [matrices [rv [_ [H2 H3]]]]].
  - lia.
  - apply diameter_unit_donor. reflexivity.
  - lra.
  - exists matrices, rv. split; [exact H2|].
    destruct (H3 0%nat) as [H _]; [simpl; lia|exact H].
Defined.

Lemma dot_autorotate_diff (e d a b c : Vector) :
  dot (vsub (mul_vec (autorotate e d) a) (mul_vec (autorotate e d) b))
      (mul_vec (autorotate e d) c)
  = dot (vsub a b) c.
Proof.
  unfold autorotate.
  destruct (normalized_zero_or_unit (vsub d (vscale (Vector_length d) e))) as [Z|U].
  - rewrite Z, householder_zero. destruct a, b, c.
    unfold dot, vsub. unfold_matrix. simpl. ring.
  - revert U. generalize (normalized (vsub d (vscale (Vector_length d) e))).
    intros [x y z] U. destruct a as [a1 a2 a3], b as [b1 b2 b3], c as [c1 c2 c3].
    unfold dot, vsub in *. simpl in U. unfold_matrix. simpl. nsatz.
Qed.

(* ================================================================== *)
(** ** Orientation of the copies *)

Lemma Scale_axis_basis (i : nat) (x : Vector) (s : R) :
  getitem all_axes i = Ok x ->
  Scale_axis s x
  = mkMatrix (mkRow (1 + (s - 1) * (vx x * vx x)) 0 0 0)
             (mkRow 0 (1 + (s - 1) * (vy x * vy x)) 0 0)
             (mkRow 0 0 (1 + (s - 1) * (vz x * vz x)) 0)
             (mkRow 0 0 0 1).
Proof.
  intros Hx. unfold Scale_axis. rewrite (Vector_length_basis i x Hx).
  destruct (all_axes_cases i x Hx) as [->|[->| ->]]; simpl; matrix_ext; field.
Qed.

Lemma determinant_transform_unit (self : Node) (i : nat) (x o v : Vector) (s : R)
    (m : Matrix) :
  getitem all_axes i = Ok x -> dot v v = 1 ->
  In m (transforms self x (householder v) s [o]) ->
  determinant m = scale_determinant self s.
Proof.
  intros Hx Hv. unfold transforms, scale_determinant.
  destruct v as [a b c]. unfold dot in Hv; simpl in Hv.
  destruct o as [o1 o2 o3].
  destruct (scale_off self).
  - intros [<-|[]]. unfold_matrix. nsatz.
  - destruct (scale_all self).
    + intros [<-|[]]. unfold_matrix. nsatz.
    + intros [<-|[]]. rewrite (Scale_axis_basis i x s Hx).
      destruct (all_axes_cases i x Hx) as [->|[->| ->]]; unfold_matrix; nsatz.
Qed.

Lemma determinant_transform_identity (self : Node) (i : nat) (x o : Vector) (s : R)
    (m : Matrix) :
  getitem all_axes i = Ok x ->
  In m (transforms self x identity s [o]) ->
  determinant m = - scale_determinant self s.
Proof.
  intros Hx. unfold transforms, scale_determinant.
  destruct o as [o1 o2 o3].
  destruct (scale_off self).
  - intros [<-|[]]. unfold_matrix. ring.
  - destruct (scale_all self).
    + intros [<-|[]]. unfold_matrix. ring.
    + intros [<-|[]]. rewrite (Scale_axis_basis i x s Hx).
      destruct (all_axes_cases i x Hx) as [->|[->| ->]]; unfold_matrix; ring.
Qed.

Lemma In_transforms (self : Node) (x : Vector) (rot : Matrix) (s : R)
    (os : list Vector) (m : Matrix) :
  In m (transforms self x rot s os) ->
  exists o, In o os /\ In m (transforms self x rot s [o]).
Proof.
  unfold transforms. destruct (scale_off self); intros H;
    apply in_map_iff in H; destruct H as [o [<- Ho]];
    exists o; (split; [exact Ho|left; reflexivity]).
Qed.

(** X14. The determinant of every instance transform is that of its scale
    factor (1 in mode "off", x_scale^3 with [scale_all], x_scale otherwise)
    when the segment does not point along the positive orientation axis, and
    the opposite number when it does (or has length zero): there the copies
    come out mirrored. *)
Theorem instance_determinant (self : Node) (v1 v2 : Vector)
    (vertices : list Vector) (edges : EdgeSet) (faces : FaceSet) (count : Z)
    (E : R) (x : Vector) :
  (1 <= count)%Z ->
  diameter vertices (orient_axis self) = Ok E -> E <> 0 ->
  getitem all_axes (orient_axis self) = Ok x ->
  let direction := vsub v2 v1 in
  let s := Vector_length direction / IZR count / E in
  exists matrices rv,
    duplicate_vertices self v1 v2 vertices edges faces count = Ok (matrices, rv) /\
    ((forall c, 0 <= c -> direction <> vscale c x) ->
       forall m, In m matrices -> determinant m = scale_determinant self s) /\
    ((exists c, 0 <= c /\ direction = vscale c x) ->
       forall m, In m matrices -> determinant m = - scale_determinant self s).
Proof.
  intros Hc HE HE0 Hx direction s.
  exists (transforms self x (autorotate x direction) s (midpoints v1 direction count)).
  eexists.
  split; [apply (duplicate_vertices_ok self v1 v2 vertices edges faces count E x Hc HE HE0 Hx)|].
  split.
  - intros Hna m Hm. apply In_transforms in Hm. destruct Hm as [o [_ Hm]].
    apply (determinant_transform_unit self (orient_axis self) x o _ s m Hx
             (normalized_unit _ (not_aligned_nonzero x direction Hna)) Hm).
  - intros [c [Hc0 Hd]] m Hm. apply In_transforms in Hm. destruct Hm as [o [_ Hm]].
    rewrite Hd in Hm.
    rewrite (autorotate_identity _ _ (autorotate_aligned (orient_axis self) x c Hx Hc0)) in Hm.
    apply (determinant_transform_identity self (orient_axis self) x o s m Hx Hm).
Qed.

Lemma instance_determinant_witness :
  let self := mkNode mode_off axis_X false true in
  let donor := [mkVector 0 0 0; mkVector 1 0 0] in
  (1 <= 2)%Z /\ (1 : R) <> 0 /\
  exists matrices rv,
    duplicate_vertices self (mkVector 0 0 0) (mkVector 3.5 0 0) donor [] [] 2
    = Ok (matrices, rv) /\
    forall m, In m matrices -> determinant m = -1.
Proof.
  intros self donor. split; [lia|]. split; [lra|].
  destruct (instance_determinant self (mkVector 0 0 0) (mkVector 3.5 0 0)
              donor [] [] 2 1 (mkVector 1 0 0))
    as [matrices [rv [H1 [_ H3]]]].
  - lia.
  - apply diameter_unit_donor. reflexivity.
  - lra.
  - reflexivity.
  - exists matrices, rv. split; [exact H1|].
    intros m Hm.
    assert (Ha : exists c, 0 <= c /\
                   vsub (mkVector 3.5 0 0) (mkVector 0 0 0) = vscale c (mkVector 1 0 0)).
    { exists 3.5. split; [lra|apply vector_eq; simpl; lra]. }
    rewrite (H3 Ha m Hm). unfold scale_determinant. simpl. reflexivity.
Defined.

(* ================================================================== *)
(** ** Geometry of the origins *)

Lemma nth_midpoints (v1 direction : Vector) (count : Z) (k : nat) :
  (k < Z.to_nat count)%nat ->
  nth k (midpoints v1 direction count) zero_vector
  = vadd v1 (vscale ((INR k + 0.5) / IZR count) direction).
Proof.
  intros Hk. unfold midpoints.
  rewrite (nth_indep _ zero_vector
             (vadd v1 (vscale ((INR 0 + 0.5) / IZR count) direction)))
    by (rewrite length_map, length_seq; exact Hk).
  rewrite (map_nth (fun k => vadd v1 (vscale ((INR k + 0.5) / IZR count) direction))).
  rewrite seq_nth by exact Hk. reflexivity.
Qed.

(** X15. The origins lie strictly inside the segment, consecutive origins
    are one step (v2 - v1) / count apart, and the k-th origin from the start
    and the k-th from the end are symmetric about the middle of the segment:
    their sum is v1 + v2. *)
Theorem origins_evenly_spaced (v1 v2 : Vector) (count : Z) :
  (1 <= count)%Z ->
  let direction := vsub v2 v1 in
  exists os,
    origins v1 direction (Vector_length direction / IZR count)
            (normalized direction) count = Ok os /\
    forall k, (k < Z.to_nat count)%nat ->
      (exists t, 0 < t < 1 /\ nth k os zero_vector = vadd v1 (vscale t direction)) /\
      ((S k < Z.to_nat count)%nat ->
         vsub (nth (S k) os zero_vector) (nth k os zero_vector)
         = vscale (/ IZR count) direction) /\
      vadd (nth k os zero_vector) (nth (Z.to_nat count - 1 - k) os zero_vector)
      = vadd v1 v2.
Proof.
  intros Hc direction.
  exists (midpoints v1 direction count). split; [apply origins_spec, Hc|].
  intros k Hk.
  assert (HI : INR (Z.to_nat count) = IZR count)
    by (rewrite INR_IZR_INZ, Z2Nat.id by lia; reflexivity).
  assert (Hc1 : 1 <= IZR count) by (apply IZR_le in Hc; exact Hc).
  assert (Hk0 : 0 <= INR k) by apply pos_INR.
  assert (Hk1 : INR k + 1 <= IZR count).
  { rewrite <- HI, <- S_INR. apply le_INR. lia. }
  split; [|split].
  - exists ((INR k + 0.5) / IZR count). split; [|apply nth_midpoints, Hk].
    split.
    + unfold Rdiv. apply Rmult_lt_0_compat; [lra|apply Rinv_0_lt_compat; lra].
    + apply div_lt; lra.
  - intros HSk. rewrite !nth_midpoints by lia. rewrite S_INR.
    replace 0.5 with (/ 2) by lra.
    apply vector_eq; simpl; field; lra.
  - rewrite !nth_midpoints by lia.
    rewrite !minus_INR by lia. rewrite HI. simpl INR.
    replace 0.5 with (/ 2) by lra.
    unfold direction. apply vector_eq; simpl; field; lra.
Qed.

Lemma origins_evenly_spaced_witness :
  (1 <= 3)%Z /\
  exists os,
    origins (mkVector 0 0 0) (vsub (mkVector 3 0 0) (mkVector 0 0 0))
            (Vector_length (vsub (mkVector 3 0 0) (mkVector 0 0 0)) / IZR 3)
            (normalized (vsub (mkVector 3 0 0) (mkVector 0 0 0))) 3 = Ok os /\
    vadd (nth 0 os zero_vector) (nth 2 os zero_vector)
    = vadd (mkVector 0 0 0) (mkVector 3 0 0).
Proof.
  split; [lia|].
  destruct (origins_evenly_spaced (mkVector 0 0 0) (mkVector 3 0 0) 3)
    as [os [H1 H2]]; [lia|].
  exists os. split; [exact H1|].
  destruct (H2 0%nat) as [_ [_ H]]; [simpl; lia|exact H].
Defined.

(* ================================================================== *)
(** ** More on the batch loop *)

Lemma process_body_raise_acc (self : Node) (acc acc' : Outputs) (it : Item) (e : exn) :
  process_body self acc it = Raise e -> process_body self acc' it = Raise e.
Proof.
  unfold process_body.
  destruct (get_count self _ _ _ _) as [c0|e0]; cbn [bind]; [|exact (fun H => H)].
  destruct (duplicate_vertices self _ _ _ _ _ _) as [[ms vs]|e0]; cbn [bind];
    [discriminate|exact (fun H => H)].
Qed.

Lemma process_loop_app (self : Node) (pre post : list Item) (acc : Outputs) :
  process_loop self (pre ++ post) acc
  = (acc' <- process_loop self pre acc ;; process_loop self post acc').
Proof.
  revert acc. induction pre as [|it pre IH]; intros acc; [reflexivity|].
  cbn [app process_loop].
  destruct (process_body self acc it) as [acc'|e]; cbn [bind]; [apply IH|reflexivity].
Qed.

(** X16. The loop stops at the first batch item that fails: when the items
    before it return and the loop body raises an exception on it, the whole
    loop raises that exception, whatever the items after it and whatever
    was accumulated, and nothing is output. *)
Theorem process_loop_first_failure (self : Node) (pre post : list Item) (it : Item)
    (outs : list Outputs) (e : exn) (acc : Outputs) :
  Forall2 (fun it o => process_body self no_outputs it = Ok o) pre outs ->
  process_body self no_outputs it = Raise e ->
  process_loop self (pre ++ it :: post) acc = Raise e.
Proof.
  intros Hpre Hit. rewrite process_loop_app.
  rewrite (process_loop_acc self pre outs Hpre acc). cbn [bind process_loop].
  rewrite (process_body_raise_acc self no_outputs _ it e Hit). reflexivity.
Qed.

Lemma process_loop_first_failure_witness :
  let self := mkNode mode_up axis_X false true in
  let good := mkItem [mkVector 0 0 0; mkVector 1 0 0] [] []
                     (mkVector 0 0 0) (mkVector 2 0 0) 1 in
  let bad := mkItem [mkVector 5 5 5] [] [] (mkVector 0 0 0) (mkVector 2 0 0) 1 in
  process_loop self ([good] ++ bad :: [good]) no_outputs = Raise ZeroDivisionError.
Proof.
  intros self good bad.
  destruct (item_outputs_exist self good 1) as [o [c0 [c [_ [_ [_ [Ho _]]]]]]].
  - apply diameter_unit_donor. reflexivity.
  - lra.
  - apply (process_loop_first_failure self [good] [good] bad [o]).
    + constructor; [exact Ho|constructor].
    + apply process_body_zero_extent.
      unfold diameter. cbn. f_equal. ring.
Defined.

(** Whenever [duplicate_vertices] returns, it returns [count] matrices and
    [count] vertex sets. *)
Lemma duplicate_vertices_lengths (self : Node) (v1 v2 : Vector)
    (vertices : list Vector) (edges : EdgeSet) (faces : FaceSet) (count : Z)
    (ms : list Matrix) (vs : list (list Vector)) :
  duplicate_vertices self v1 v2 vertices edges faces count = Ok (ms, vs) ->
  List.length ms = Z.to_nat count /\ List.length vs = Z.to_nat count.
Proof.
  unfold duplicate_vertices.
  destruct (float_div _ (IZR count)) as [q|e]; cbn [bind]; [|discriminate].
  destruct (diameter vertices (orient_axis self)) as [E|e]; cbn [bind]; [|discriminate].
  destruct (float_div q E) as [s|e]; cbn [bind]; [|discriminate].
  destruct (getitem all_axes (orient_axis self)) as [x|e]; cbn [bind]; [|discriminate].
  destruct (origins v1 _ q _ count) as [os|e]; cbn [bind]; [|discriminate].
  destruct (Z.eqb_spec (Z.of_nat (List.length os)) count) as [Hlen|Hlen];
    cbn [negb]; [|discriminate].
  destruct (inverted _) as [rot|e]; cbn [bind]; [|discriminate].
  intros H. injection H as <- <-.
  assert (Hms : forall sc : option Matrix,
            List.length
              match sc with
              | None => map (fun o => mmul (mmul (Translation o) rot) flip) os
              | Some scale =>
                  map (fun o => mmul (mmul (mmul (Translation o) rot) scale) flip) os
              end = Z.to_nat count).
  { intros [sc|]; rewrite length_map; lia. }
  split; [apply Hms|].
  destruct (apply_matrices self); [rewrite length_map; apply Hms|apply repeat_length].
Qed.

(** X17. The four outputs of the loop stay aligned one to one: after any run
    that returns, started from aligned accumulators, the lists of matrices,
    vertex sets, edge sets and face sets have the same length. *)
Theorem process_loop_outputs_aligned (self : Node) (items : list Item)
    (acc out : Outputs) :
  List.length (result_vertices acc) = List.length (result_matrices acc) ->
  List.length (result_edges acc) = List.length (result_matrices acc) ->
  List.length (result_faces acc) = List.length (result_matrices acc) ->
  process_loop self items acc = Ok out ->
  List.length (result_vertices out) = List.length (result_matrices out) /\
  List.length (result_edges out) = List.length (result_matrices out) /\
  List.length (result_faces out) = List.length (result_matrices out).
Proof.
  revert acc. induction items as [|it items IH]; intros acc Hv He Hf Hrun.
  - injection Hrun as <-. auto.
  - cbn [process_loop] in Hrun.
    destruct (process_body self acc it) as [acc'|e] eqn:Hb; [|discriminate].
    cbn [bind] in Hrun. apply (IH acc'); [| | |exact Hrun]; clear IH Hrun.
    all: unfold process_body in Hb;
      destruct (get_count self _ _ _ _) as [c0|e0]; cbn [bind] in Hb; [|discriminate];
      destruct (duplicate_vertices self _ _ _ _ _ _) as [[ms vs]|e0] eqn:Hd;
        cbn [bind] in Hb; [|discriminate];
      injection Hb as <-; cbn [result_matrices result_vertices result_edges result_faces];
      rewrite !length_app, ?repeat_length;
      apply duplicate_vertices_lengths in Hd; destruct Hd as [Hm Hvs]; lia.
Qed.

Lemma process_loop_outputs_aligned_witness :
  let self := mkNode mode_down axis_X false true in
  let it := mkItem [mkVector 0 0 0; mkVector 1 0 0] [[0; 1]%Z] []
                   (mkVector 0 0 0) (mkVector 3.5 0 0) 1 in
  exists out,
    process_loop self [it] no_outputs = Ok out /\
    List.length (result_edges out) = List.length (result_matrices out).
Proof.
  intros self it.
  destruct (item_outputs_exist self it 1) as [o [c0 [c [_ [_ [_ [Ho _]]]]]]].
  - apply diameter_unit_donor. reflexivity.
  - lra.
  - assert (Hrun : process_loop self [it] no_outputs
                   = Ok (append_outputs no_outputs (concat_outputs [o]))).
    { apply process_loop_acc. constructor; [exact Ho|constructor]. }
    eexists. split; [exact Hrun|].
    apply (process_loop_outputs_aligned self [it] no_outputs _
             eq_refl eq_refl eq_refl Hrun).
Defined.

(* ================================================================== *)
(** ** Recipient edges *)

Lemma mapM_ok {A B : Type} (f : A -> result B) (g : A -> B) (l : list A) :
  (forall a, In a l -> f a = Ok (g a)) -> mapM f l = Ok (map g l).
Proof.
  induction l as [|a l IH]; intros H; [reflexivity|].
  cbn [mapM map]. rewrite (H a (or_introl eq_refl)). cbn [bind].
  rewrite IH by (intros b Hb; apply H; right; exact Hb). reflexivity.
Qed.

Lemma mapM_raise {A B : Type} (f : A -> result B) (e : exn) (l : list A) :
  (forall a, In a l -> (exists b, f a = Ok b) \/ f a = Raise e) ->
  (exists a, In a l /\ f a = Raise e) ->
  mapM f l = Raise e.
Proof.
  induction l as [|a l IH]; intros Hall [b [Hb Hf]]; [contradiction|].
  cbn [mapM]. destruct (Hall a (or_introl eq_refl)) as [[r Hr]|Hr].
  - rewrite Hr. cbn [bind]. rewrite IH; [reflexivity| |].
    + intros a' Ha'. apply Hall. right; exact Ha'.
    + destruct Hb as [<-|Hb]; [congruence|]. exists b. split; assumption.
  - rewrite Hr. reflexivity.
Qed.

Lemma getitem_nth {A : Type} (l : list A) (i : nat) (d : A) :
  (i < List.length l)%nat -> getitem l i = Ok (nth i l d).
Proof.
  intros H. unfold getitem.
  rewrite (nth_error_nth' l d H). reflexivity.
Qed.

Lemma py_getitem_in_range {A : Type} (l : list A) (i : Z) (d : A) :
  (0 <= i < Z.of_nat (List.length l))%Z ->
  py_getitem l i = Ok (nth (Z.to_nat i) l d).
Proof.
  intros H. unfold py_getitem.
  destruct (Z.leb_spec 0 i); [|lia].
  destruct (Z.ltb_spec i (Z.of_nat (List.length l))); [|lia].
  cbn [andb]. apply getitem_nth. lia.
Qed.

Lemma py_getitem_negative {A : Type} (l : list A) (i : Z) (d : A) :
  (- Z.of_nat (List.length l) <= i < 0)%Z ->
  py_getitem l i = Ok (nth (Z.to_nat (Z.of_nat (List.length l) + i)) l d).
Proof.
  intros H. unfold py_getitem.
  destruct (Z.leb_spec 0 i); [lia|]. cbn [andb].
  destruct (Z.leb_spec (- Z.of_nat (List.length l)) i); [|lia].
  destruct (Z.ltb_spec i 0); [|lia].
  cbn [andb]. apply getitem_nth. lia.
Qed.

Lemma py_getitem_out_of_range {A : Type} (l : list A) (i : Z) :
  (i < - Z.of_nat (List.length l) \/ Z.of_nat (List.length l) <= i)%Z ->
  py_getitem l i = Raise IndexError.
Proof.
  intros H. unfold py_getitem.
  destruct (Z.leb_spec 0 i), (Z.ltb_spec i (Z.of_nat (List.length l)));
    cbn [andb]; try lia;
    destruct (Z.leb_spec (- Z.of_nat (List.length l)) i), (Z.ltb_spec i 0);
    cbn [andb]; try lia; reflexivity.
Qed.

Lemma py_getitem_ok_or_IndexError {A : Type} (l : list A) (i : Z) :
  (exists a, py_getitem l i = Ok a) \/ py_getitem l i = Raise IndexError.
Proof.
  destruct l as [|d l'] eqn:El.
  - right. apply py_getitem_out_of_range. simpl. lia.
  - rewrite <- El.
    destruct (Z_lt_le_dec i (- Z.of_nat (List.length l))) as [H1|H1];
      [right; apply py_getitem_out_of_range; lia|].
    destruct (Z_lt_le_dec i 0) as [H2|H2];
      [left; eexists; apply (py_getitem_negative l i d); lia|].
    destruct (Z_lt_le_dec i (Z.of_nat (List.length l))) as [H3|H3];
      [left; eexists; apply (py_getitem_in_range l i d); lia|].
    right. apply py_getitem_out_of_range. lia.
Qed.

(** X18. In "edge" mode, when every recipient edge is a pair of indices
    into the recipient vertices, [get_recipient_vertices] returns two lists
    as long as the list of edges, holding the first and the second end of
    each edge in order; a negative index counts from the end, as -1 for the
    last vertex.  When every edge is a pair and some index is out of range
    it raises IndexError.  In "fixed" mode the two given lists come back
    unchanged. *)
Theorem get_recipient_vertices_ends (vs1 vs2 vertices : list Vector)
    (edges : EdgeSet) (d : Vector) :
  let n := Z.of_nat (List.length vertices) in
  let at_index := fun i : Z =>
    nth (Z.to_nat (if (i <? 0)%Z then n + i else i)%Z) vertices d in
  (Forall (fun e => exists i j, e = [i; j] /\ (- n <= i < n)%Z /\ (- n <= j < n)%Z)
          edges ->
   exists rs1 rs2,
     get_recipient_vertices input_edge vs1 vs2 vertices edges = Ok (rs1, rs2) /\
     List.length rs1 = List.length edges /\ List.length rs2 = List.length edges /\
     forall k i j, nth_error edges k = Some [i; j] ->
       nth k rs1 d = at_index i /\ nth k rs2 d = at_index j) /\
  (Forall (fun e => exists i j, e = [i; j]) edges ->
   Exists (fun e => exists i, In i e /\ (i < - n \/ n <= i)%Z) edges ->
   get_recipient_vertices input_edge vs1 vs2 vertices edges = Raise IndexError) /\
  get_recipient_vertices input_fixed vs1 vs2 vertices edges = Ok (vs1, vs2).
Proof.
  intros n at_index.
  assert (Hat : forall i, (- n <= i < n)%Z -> py_getitem vertices i = Ok (at_index i)).
  { intros i Hi. unfold at_index. destruct (Z.ltb_spec i 0).
    - apply py_getitem_negative. fold n. lia.
    - apply py_getitem_in_range. fold n. lia. }
  split; [|split; [|reflexivity]].
  - intros Hall. rewrite Forall_forall in Hall.
    exists (map (fun e => at_index (nth 0 e 0%Z)) edges),
           (map (fun e => at_index (nth 1 e 0%Z)) edges).
    split; [|split; [apply length_map|split; [apply length_map|]]].
    + unfold get_recipient_vertices.
      rewrite (mapM_ok _ (fun e => at_index (nth 0 e 0%Z))).
      * cbn [bind]. rewrite (mapM_ok _ (fun e => at_index (nth 1 e 0%Z))).
        -- reflexivity.
        -- intros e He. destruct (Hall e He) as [i [j [-> [Hi Hj]]]].
           cbn [unpack_pair bind snd nth]. apply Hat, Hj.
      * intros e He. destruct (Hall e He) as [i [j [-> [Hi Hj]]]].
        cbn [unpack_pair bind fst nth]. apply Hat, Hi.
    + intros k i j Hk.
      assert (Hlt : (k < List.length edges)%nat)
        by (apply nth_error_Some; rewrite Hk; discriminate).
      split.
      * rewrite (nth_indep _ d (at_index (nth 0 [] 0%Z))) by (rewrite length_map; exact Hlt).
        rewrite (map_nth (fun e => at_index (nth 0 e 0%Z))).
        rewrite (nth_error_nth _ _ [] Hk). reflexivity.
      * rewrite (nth_indep _ d (at_index (nth 1 [] 0%Z))) by (rewrite length_map; exact Hlt).
        rewrite (map_nth (fun e => at_index (nth 1 e 0%Z))).
        rewrite (nth_error_nth _ _ [] Hk). reflexivity.
  - intros Hpairs Hbad. rewrite Forall_forall in Hpairs. rewrite Exists_exists in Hbad.
    assert (H1 : forall e, In e edges ->
              (exists b, (p <- unpack_pair e ;; py_getitem vertices (fst p)) = Ok b) \/
              (p <- unpack_pair e ;; py_getitem vertices (fst p)) = Raise IndexError).
    { intros e He. destruct (Hpairs e He) as [i [j ->]].
      cbn [unpack_pair bind fst]. apply py_getitem_ok_or_IndexError. }
    assert (H2 : forall e, In e edges ->
              (exists b, (p <- unpack_pair e ;; py_getitem vertices (snd p)) = Ok b) \/
              (p <- unpack_pair e ;; py_getitem vertices (snd p)) = Raise IndexError).
    { intros e He. destruct (Hpairs e He) as [i [j ->]].
      cbn [unpack_pair bind snd]. apply py_getitem_ok_or_IndexError. }
    unfold get_recipient_vertices.
    destruct (mapM (fun e => p <- unpack_pair e ;; py_getitem vertices (fst p)) edges)
      as [rs1|e1] eqn:Hm1.
    + cbn [bind]. rewrite (mapM_raise _ IndexError edges H2); [reflexivity|].
      destruct Hbad as [e [He [i [Hi Hout]]]].
      destruct (Hpairs e He) as [a [b ->]].
      destruct Hi as [<-|[<-|[]]].
      * exfalso. clear H2.
        assert (Hok : forall l rs, mapM (fun e => p <- unpack_pair e ;;
                                           py_getitem vertices (fst p)) l = Ok rs ->
                      forall e, In e l ->
                      exists r, (p <- unpack_pair e ;; py_getitem vertices (fst p)) = Ok r).
        { induction l as [|x l IH]; intros rs Hrs e' He'; [contradiction|].
          cbn [mapM] in Hrs.
          destruct (p <- unpack_pair x ;; py_getitem vertices (fst p)) as [r|] eqn:Hx;
            [|discriminate].
          cbn [bind] in Hrs.
          destruct (mapM _ l) as [rs'|]; [|discriminate].
          destruct He' as [<-|He']; [exists r; exact Hx|apply (IH rs' eq_refl), He']. }
        destruct (Hok edges rs1 Hm1 [a; b] He) as [r Hr].
        cbn [unpack_pair bind fst] in Hr.
        rewrite py_getitem_out_of_range in Hr by (fold n; exact Hout). discriminate.
      * exists [a; b]. split; [exact He|].
        cbn [unpack_pair bind snd]. apply py_getitem_out_of_range. fold n. exact Hout.
    + cbn [bind]. f_equal.
      assert (Hraise : forall l e0, mapM (fun e => p <- unpack_pair e ;;
                                           py_getitem vertices (fst p)) l = Raise e0 ->
                       (forall e, In e l -> In e edges) -> e0 = IndexError).
      { induction l as [|x l IH]; intros e0 Hl Hsub; [discriminate|].
        cbn [mapM] in Hl.
        destruct (H1 x (Hsub x (or_introl eq_refl))) as [[r Hr]|Hr]; rewrite Hr in Hl.
        - cbn [bind] in Hl. destruct (mapM _ l) as [rs'|e'] eqn:Hml; [discriminate|].
          cbn [bind] in Hl. injection Hl as <-.
          apply (IH e' eq_refl). intros e He. apply Hsub. right; exact He.
        - cbn [bind] in Hl. congruence. }
      apply (Hraise edges e1 Hm1). auto.
Qed.

Lemma get_recipient_vertices_ends_witness :
  let vertices := [mkVector 0 0 0; mkVector 1 0 0; mkVector 1 1 0] in
  exists rs1 rs2,
    get_recipient_vertices input_edge [] [] vertices [[0; 1]; [1; -1]]%Z = Ok (rs1, rs2) /\
    List.length rs1 = 2%nat.
Proof.
  intros vertices.
  destruct (get_recipient_vertices_ends [] [] vertices [[0; 1]; [1; -1]]%Z zero_vector)
    as [H _].
  destruct H as [rs1 [rs2 [H1 [H2 _]]]].
  - repeat constructor.
    + exists 0%Z, 1%Z. simpl. repeat split; lia.
    + exists 1%Z, (-1)%Z. simpl. repeat split; lia.
  - exists rs1, rs2. split; [exact H1|exact H2].
Defined.

(** X19. [Matrix_degenerate] keeps the number of matrices, turns each into
    four rows of four numbers, and loses nothing: two lists of matrices with
    the same image are equal. *)
Theorem Matrix_degenerate_shape (ms ms' : list Matrix) :
  List.length (Matrix_degenerate ms) = List.length ms /\
  Forall (fun M => List.length M = 4%nat /\ Forall (fun j => List.length j = 4%nat) M)
         (Matrix_degenerate ms) /\
  (Matrix_degenerate ms = Matrix_degenerate ms' -> ms = ms').
Proof.
  split; [apply length_map|]. split.
  - apply Forall_forall. intros M HM. unfold Matrix_degenerate in HM.
    apply in_map_iff in HM. destruct HM as [m [<- _]].
    split; [reflexivity|]. repeat constructor.
  - revert ms'. induction ms as [|m ms IH]; intros [|m' ms'] H; try discriminate.
    + reflexivity.
    + pose proof (f_equal (fun l => hd [] l) H) as Hh.
      pose proof (f_equal (@tl _) H) as Ht.
      cbn [Matrix_degenerate map hd tl] in Hh, Ht.
      f_equal; [|apply IH, Ht].
      destruct m as [[a0 a1 a2 a3] [b0 b1 b2 b3] [d0 d1 d2 d3] [e0 e1 e2 e3]].
      destruct m' as [[a0' a1' a2' a3'] [b0' b1' b2' b3'] [d0' d1' d2' d3'] [e0' e1' e2' e3']].
      cbn in Hh. injection Hh. intros. subst. reflexivity.
Qed.

(* ================================================================== *)
(** ** Edges of faces *)

Lemma nth_rotate (a : Z) (rest : list Z) (k : nat) :
  (k < S (List.length rest))%nat ->
  nth k (rest ++ [a]) 0%Z = nth (S k mod S (List.length rest)) (a :: rest) 0%Z.
Proof.
  intros Hk. destruct (Nat.eq_dec k (List.length rest)) as [->|Hne].
  - rewrite Nat.Div0.mod_same. rewrite app_nth2 by lia.
    rewrite Nat.sub_diag. reflexivity.
  - rewrite Nat.mod_small by lia. rewrite app_nth1 by lia. reflexivity.
Qed.

Lemma In_face_edges (face : list Z) (es : list (Z * Z)) (e : Z * Z) :
  face_edges face = Ok es ->
  (In e es <->
   exists k, (k < List.length face)%nat /\
             e = (nth k face 0%Z, nth (S k mod List.length face) face 0%Z)).
Proof.
  destruct face as [|a rest]; [discriminate|]. intros H.
  assert (Hes : es = combine (a :: rest) (rest ++ [a]))
    by (injection H as <-; reflexivity).
  rewrite Hes. clear H Hes.
  assert (Hlen : List.length (combine (a :: rest) (rest ++ [a])) = S (List.length rest)).
  { rewrite length_combine, length_app. cbn [List.length]. lia. }
  assert (Hnth : forall k, (k < S (List.length rest))%nat ->
            nth k (combine (a :: rest) (rest ++ [a])) (0%Z, 0%Z)
            = (nth k (a :: rest) 0%Z,
               nth (S k mod S (List.length rest)) (a :: rest) 0%Z)).
  { intros k Hk. rewrite combine_nth by (rewrite length_app; cbn [List.length]; lia).
    rewrite (nth_rotate a rest k Hk). reflexivity. }
  cbn [List.length]. split.
  - intros Hin. apply (In_nth _ _ (0%Z, 0%Z)) in Hin. destruct Hin as [k [Hk <-]].
    rewrite Hlen in Hk. exists k. split; [exact Hk|apply Hnth, Hk].
  - intros [k [Hk ->]]. rewrite <- (Hnth k Hk). apply nth_In. rewrite Hlen. exact Hk.
Qed.

Lemma add_edges_spec (es : list (Z * Z)) (out : list (Z * Z)) :
  NoDup out ->
  let out' := fold_left (fun out edge => set_add edge_eq_dec (sorted_edge edge) out)
                        es out in
  NoDup out' /\
  forall e, In e out' <-> In e out \/ exists e', In e' es /\ e = sorted_edge e'.
Proof.
  revert out. induction es as [|x es IH]; intros out Hnd; cbn [fold_left].
  - split; [exact Hnd|]. intros e. split; [auto|].
    intros [H|[e' [[] _]]]. exact H.
  - destruct (IH (set_add edge_eq_dec (sorted_edge x) out)
                (set_add_nodup edge_eq_dec _ Hnd)) as [H1 H2].
    split; [exact H1|]. intros e. rewrite H2, set_add_iff. split.
    + intros [[->|H]|[e' [He' ->]]].
      * right. exists x. split; [left; reflexivity|reflexivity].
      * left. exact H.
      * right. exists e'. split; [right; exact He'|reflexivity].
    + intros [H|[e' [[<-|He'] ->]]].
      * left. right. exact H.
      * left. left. reflexivity.
      * right. exists e'. split; [exact He'|reflexivity].
Qed.

Lemma edges_fold_spec (indices : list (list Z)) (out0 : list (Z * Z)) :
  Forall (fun face => face <> []) indices -> NoDup out0 ->
  exists out,
    fold_left add_face_edges indices (Ok out0) = Ok out /\ NoDup out /\
    forall e, In e out <->
      In e out0 \/
      exists face es e', In face indices /\ face_edges face = Ok es /\
                         In e' es /\ e = sorted_edge e'.
Proof.
  intros Hne. revert out0. induction Hne as [|face indices Hf _ IH]; intros out0 Hnd.
  - exists out0. split; [reflexivity|]. split; [exact Hnd|].
    intros e. split; [auto|]. intros [H|[f [es [e' [[] _]]]]]. exact H.
  - cbn [fold_left]. unfold add_face_edges at 2. cbn [bind].
    destruct (face_edges face) as [es|err] eqn:Hes;
      [|destruct face; [contradiction|discriminate]].
    cbn [bind].
    destruct (add_edges_spec es out0 Hnd) as [Hnd' Hin'].
    destruct (IH _ Hnd') as [out [Hout [Hnd2 Hin2]]].
    exists out. split; [exact Hout|]. split; [exact Hnd2|].
    intros e. rewrite Hin2, Hin'. split.
    + intros [[H|[e' [He' ->]]]|[f [es' [e' [Hf' [Hes' [He' ->]]]]]]].
      * left. exact H.
      * right. exists face, es, e'. repeat split; auto. left; reflexivity.
      * right. exists f, es', e'. repeat split; auto. right; exact Hf'.
    + intros [H|[f [es' [e' [[<-|Hf'] [Hes' [He' ->]]]]]]].
      * left. left. exact H.
      * left. right. exists e'. rewrite Hes in Hes'. injection Hes' as <-.
        split; [exact He'|reflexivity].
      * right. exists f, es', e'. repeat split; auto.
Qed.

Lemma sorted_edge_iff (u v a b : Z) :
  sorted_edge (u, v) = (a, b) <->
  (a <= b)%Z /\ ((a, b) = (u, v) \/ (a, b) = (v, u)).
Proof.
  unfold sorted_edge. cbn [fst snd]. split.
  - intros H. injection H as <- <-. split; [lia|].
    destruct (Z.le_ge_cases u v).
    + left. f_equal; lia.
    + right. f_equal; lia.
  - intros [Hle [H|H]]; injection H as -> ->; f_equal; lia.
Qed.

(** X20. On faces that are all non-empty [edges_from_faces] returns a
    collection without repeats ("we don't want repeat edges, ever") of pairs
    (a, b) with a <= b, holding exactly the pairs of cyclically consecutive
    indices of the faces, each with its smaller index first; so no edge
    appears in both directions. *)
Theorem edges_from_faces_spec (indices : list (list Z)) :
  Forall (fun face => face <> []) indices ->
  exists out,
    edges_from_faces indices = Ok out /\ NoDup out /\
    forall a b, In (a, b) out <->
      (a <= b)%Z /\
      exists face k,
        In face indices /\ (k < List.length face)%nat /\
        let u := nth k face 0%Z in
        let v := nth (S k mod List.length face) face 0%Z in
        (a, b) = (u, v) \/ (a, b) = (v, u).
Proof.
  intros Hne.
  destruct (edges_fold_spec indices [] Hne (NoDup_nil _)) as [out [Hout [Hnd Hin]]].
  exists out. split; [exact Hout|]. split; [exact Hnd|].
  intros a b. rewrite Hin. split.
  - intros [[]|[face [es [[u v] [Hf [Hes [He' Heq]]]]]]].
    symmetry in Heq. apply sorted_edge_iff in Heq. destruct Heq as [Hle Hor].
    split; [exact Hle|].
    apply (In_face_edges face es (u, v) Hes) in He'. destruct He' as [k [Hk Huv]].
    injection Huv as -> ->.
    exists face, k. split; [exact Hf|]. split; [exact Hk|exact Hor].
  - intros [Hle [face [k [Hf [Hk Hor]]]]]. right.
    destruct (face_edges face) as [es|err] eqn:Hes.
    + exists face, es,
        (nth k face 0%Z, nth (S k mod List.length face) face 0%Z).
      split; [exact Hf|]. split; [exact Hes|]. split.
      * apply (In_face_edges face es _ Hes). exists k. split; [exact Hk|reflexivity].
      * symmetry. apply sorted_edge_iff. split; [exact Hle|exact Hor].
    + rewrite Forall_forall in Hne. specialize (Hne face Hf).
      destruct face; [contradiction|discriminate].
Qed.

Lemma edges_from_faces_spec_witness :
  exists out,
    edges_from_faces [[0; 1; 2]; [2; 1; 3]]%Z = Ok out /\ NoDup out.
Proof.
  destruct (edges_from_faces_spec [[0; 1; 2]; [2; 1; 3]]%Z) as [out [H1 [H2 _]]].
  - repeat constructor; discriminate.
  - exists out. split; [exact H1|exact H2].
Defined.

Lemma edges_fold_raise (indices : list (list Z)) (e : exn) :
  fold_left add_face_edges indices (Raise e) = Raise e.
Proof. induction indices as [|f l IH]; [reflexivity|exact IH]. Qed.

Lemma edges_fold_empty_face (indices : list (list Z)) (out : list (Z * Z)) :
  In [] indices -> fold_left add_face_edges indices (Ok out) = Raise IndexError.
Proof.
  revert out. induction indices as [|face indices IH]; intros out Hin; [contradiction|].
  cbn [fold_left]. destruct face as [|a rest].
  - change (add_face_edges (Ok out) []) with (@Raise (list (Z * Z)) IndexError).
    apply edges_fold_raise.
  - destruct Hin as [Hin|Hin]; [discriminate|].
    change (add_face_edges (Ok out) (a :: rest))
      with (Ok (fold_left (fun out edge => set_add edge_eq_dec (sorted_edge edge) out)
                          (combine (a :: rest) (rest ++ [a])) out)).
    apply IH, Hin.
Qed.

(** X21. A mesh with an empty face makes [edges_from_faces] raise
    IndexError (from [face[0]]). *)
Theorem edges_from_faces_empty_face (indices : list (list Z)) :
  In [] indices -> edges_from_faces indices = Raise IndexError.
Proof. intros Hin. exact (edges_fold_empty_face indices [] Hin). Qed.

Lemma edges_from_faces_empty_face_witness :
  edges_from_faces [[0; 1; 2]; []; [2; 1; 3]]%Z = Raise IndexError.
Proof.
  apply (edges_from_faces_empty_face [[0; 1; 2]; []; [2; 1; 3]]%Z).
  right. left. reflexivity.
Defined.

(* ================================================================== *)
(** ** Triangulation of triangles and quads *)

Lemma ensure_triangles_fold (tessellate : list (list Vector) -> list (list Z))
    (coords : list Vector) (indices : list (list Z)) (acc : list (list Z)) :
  Forall (fun f => List.length f = 3%nat \/ List.length f = 4%nat) indices ->
  fold_left
    (fun acc idxset =>
       new_indices <- acc ;;
       match idxset with
       | [a; b; c] => Ok (new_indices ++ [[a; b; c]])
       | [a; b; c; d] => Ok (new_indices ++ [[a; b; c]; [a; c; d]])
       | _ =>
           subcoords <- mapM (fun idx => py_getitem coords idx) idxset ;;
           pols <- mapM (fun pol => mapM (fun i => py_getitem idxset i) pol)
                        (tessellate [subcoords]) ;;
           Ok (new_indices ++ pols)
       end)
    indices (Ok acc)
  = Ok (acc ++ flat_map fan indices).
Proof.
  intros Hall. revert acc. induction Hall as [|f indices Hf _ IH]; intros acc.
  - cbn [fold_left flat_map]. rewrite app_nil_r. reflexivity.
  - cbn [fold_left flat_map bind].
    destruct f as [|a [|b [|c [|d [|e f]]]]]; cbn [List.length] in Hf;
      try (exfalso; lia).
    + rewrite IH. cbn [fan]. rewrite <- app_assoc. reflexivity.
    + rewrite IH. cbn [fan]. rewrite <- app_assoc. reflexivity.
Qed.

(** X22. On a mesh of triangles and quads only, [ensure_triangles] leaves
    [tessellate] and the coordinates unused: every triangle is kept, every
    quad a b c d becomes a b c and a c d, in the order of the faces; the
    result has one triangle per face plus one more per quad, each of three
    indices taken from one of the faces. *)
Theorem ensure_triangles_tris_and_quads
    (tessellate : list (list Vector) -> list (list Z)) (coords : list Vector)
    (indices : list (list Z)) :
  Forall (fun f => List.length f = 3%nat \/ List.length f = 4%nat) indices ->
  exists tris,
    ensure_triangles tessellate coords indices = Ok tris /\
    tris = flat_map fan indices /\
    List.length tris
    = (List.length indices + List.length (filter is_quad indices))%nat /\
    Forall (fun t => List.length t = 3%nat /\
                     exists f, In f indices /\ incl t f) tris.
Proof.
  intros Hall. exists (flat_map fan indices).
  split; [apply (ensure_triangles_fold tessellate coords indices [] Hall)|].
  split; [reflexivity|]. split.
  - induction Hall as [|f indices Hf _ IH]; [reflexivity|].
    cbn [flat_map filter List.length]. rewrite length_app, IH.
    destruct f as [|a [|b [|c [|d [|e f]]]]]; cbn [List.length] in Hf;
      try (exfalso; lia); cbn; lia.
  - apply Forall_forall. intros t Ht. apply in_flat_map in Ht.
    destruct Ht as [f [Hf Ht]]. rewrite Forall_forall in Hall.
    specialize (Hall f Hf).
    destruct f as [|a [|b [|c [|d [|e f]]]]]; cbn [List.length] in Hall;
      try (exfalso; lia); cbn [fan] in Ht.
    + destruct Ht as [<-|[]]. split; [reflexivity|].
      exists [a; b; c]. split; [exact Hf|apply incl_refl].
    + destruct Ht as [<-|[<-|[]]]; (split; [reflexivity|]);
        exists [a; b; c; d]; (split; [exact Hf|]);
        intros x Hx; simpl in Hx; simpl; intuition.
Qed.

Lemma ensure_triangles_tris_and_quads_witness :
  exists tris,
    ensure_triangles (fun _ => []) [] [[0; 1; 2]; [2; 1; 3; 4]]%Z = Ok tris /\
    List.length tris = 3%nat.
Proof.
  destruct (ensure_triangles_tris_and_quads (fun _ => []) []
              [[0; 1; 2]; [2; 1; 3; 4]]%Z) as [tris [H1 [_ [H3 _]]]].
  - constructor; [left; reflexivity|].
    constructor; [right; reflexivity|constructor].
  - exists tris. split; [exact H1|exact H3].
Defined.

(* ================================================================== *)
(** ** Enum items *)

Lemma enumerate_from_spec {A : Type} (l : list A) (start : nat) :
  map fst (enumerate_from start l) = seq start (List.length l) /\
  map snd (enumerate_from start l) = l.
Proof.
  revert start. induction l as [|k l IH]; intros start; [split; reflexivity|].
  cbn [enumerate_from map fst snd List.length seq].
  destruct (IH (S start)) as [H1 H2]. rewrite H1, H2. split; reflexivity.
Qed.

(** X23. [tuple_to_enumdata] returns one item per key, in order; the item of
    the i-th key k (from 0) is (k, k, '', i), so the numbers of the items
    are 0, 1, 2, ... without repeats and the identifiers are the keys. *)
Theorem tuple_to_enumdata_items {A : Type} (iterable : list A) :
  List.length (tuple_to_enumdata iterable) = List.length iterable /\
  map (fun item => snd item) (tuple_to_enumdata iterable)
  = seq 0 (List.length iterable) /\
  NoDup (map (fun item => snd item) (tuple_to_enumdata iterable)) /\
  map (fun item => fst (fst (fst item))) (tuple_to_enumdata iterable) = iterable /\
  forall i k, nth_error iterable i = Some k ->
    nth_error (tuple_to_enumdata iterable) i = Some (k, k, String.EmptyString, i).
Proof.
  unfold tuple_to_enumdata.
  destruct (enumerate_from_spec iterable 0) as [H1 H2].
  assert (Hlen : List.length (enumerate_from 0 iterable) = List.length iterable).
  { rewrite <- (length_map fst), H1. apply length_seq. }
  assert (Hnum : map (fun item : A * A * String.string * nat => snd item)
                   (map (fun ik : nat * A => (snd ik, snd ik, String.EmptyString, fst ik))
                        (enumerate_from 0 iterable))
                 = seq 0 (List.length iterable)).
  { rewrite map_map. cbn [snd]. exact H1. }
  split; [rewrite length_map; exact Hlen|].
  split; [exact Hnum|].
  split; [rewrite Hnum; apply seq_NoDup|].
  split; [rewrite map_map; cbn [fst]; exact H2|].
  intros i k Hk.
  assert (Hi : (i < List.length iterable)%nat)
    by (apply nth_error_Some; rewrite Hk; discriminate).
  rewrite nth_error_map.
  destruct (nth_error (enumerate_from 0 iterable) i) as [[j k']|] eqn:Hn.
  - cbn [option_map fst snd].
    assert (Hj : nth_error (map fst (enumerate_from 0 iterable)) i = Some j)
      by (rewrite nth_error_map, Hn; reflexivity).
    assert (Hk' : nth_error (map snd (enumerate_from 0 iterable)) i = Some k')
      by (rewrite nth_error_map, Hn; reflexivity).
    rewrite H1 in Hj. rewrite H2, Hk in Hk'. injection Hk' as <-.
    rewrite nth_error_nth' with (d := 0%nat) in Hj by (rewrite length_seq; exact Hi).
    rewrite seq_nth in Hj by exact Hi. injection Hj as <-. reflexivity.
  - apply nth_error_None in Hn. lia.
Qed.

(* ================================================================== *)
(** ** Origins and flip inside the returned matrices *)

Lemma mul_vec_zero (m : Matrix) :
  mul_vec m zero_vector = mkVector (c3 (r0 m)) (c3 (r1 m)) (c3 (r2 m)).
Proof.
  destruct m as [[a00 a01 a02 a03] [a10 a11 a12 a13] [a20 a21 a22 a23] m3].
  apply vector_eq; unfold mul_vec, row_apply; simpl; ring.
Qed.

(** The translation parts of the matrices are the origins, in order. *)
Lemma transforms_origins (self : Node) (i : nat) (x e d : Vector) (s : R)
    (os : list Vector) :
  getitem all_axes i = Ok x ->
  map (fun m => mul_vec m zero_vector) (transforms self x (autorotate e d) s os) = os.
Proof.
  intros Hx.
  assert (H1 : forall o,
            mul_vec (nth 0 (transforms self x (autorotate e d) s [o]) identity) zero_vector
            = o).
  { intros o.
    destruct (nth_transforms_apply self x e d s [o] 0 zero_vector) as [H _];
      [simpl; lia|].
    rewrite H, (linear_image_zero self i x e d s Hx).
    cbn [nth]. destruct o. apply vector_eq; simpl; ring. }
  unfold transforms in *. destruct (scale_off self).
  - rewrite map_map. rewrite <- (map_id os) at 2. apply map_ext. intros o. apply (H1 o).
  - rewrite map_map. rewrite <- (map_id os) at 2. apply map_ext. intros o. apply (H1 o).
Qed.

(** C3. For every segment (v1, v2), every count >= 1 and every donor on
    which placement returns (non-zero extent along the orientation axis),
    [duplicate_vertices] builds exactly [count] origins, the k-th (from 0)
    being v1 + (v2 - v1) * ((k + 0.5) / count), and returns [count]
    matrices whose translation parts are these origins in order; for count
    3 on the segment from (0,0,0) to (3,0,0) with a donor of extent 1 along
    X they are (0.5,0,0), (1.5,0,0), (2.5,0,0). *)
Theorem origins_are_slot_midpoints (self : Node) (v1 v2 : Vector)
    (vertices : list Vector) (edges : EdgeSet) (faces : FaceSet) (count : Z) (E : R) :
  (1 <= count)%Z ->
  diameter vertices (orient_axis self) = Ok E -> E <> 0 ->
  let direction := vsub v2 v1 in
  (exists os matrices rv,
     origins v1 direction (Vector_length direction / IZR count)
             (normalized direction) count = Ok os /\
     duplicate_vertices self v1 v2 vertices edges faces count = Ok (matrices, rv) /\
     List.length os = Z.to_nat count /\
     (forall k, (k < Z.to_nat count)%nat ->
        nth k os zero_vector
        = vadd v1 (vscale ((INR k + 0.5) / IZR count) direction)) /\
     List.length matrices = Z.to_nat count /\
     map (fun m => mul_vec m zero_vector) matrices = os /\
     map (fun m => mkVector (c3 (r0 m)) (c3 (r1 m)) (c3 (r2 m))) matrices = os) /\
  (let a := mkVector 0 0 0 in
   let b := mkVector 3 0 0 in
   let donor := [mkVector 0 0 0; mkVector 1 0 0] in
   let node := mkNode (count_mode self) axis_X (scale_all self) (apply_matrices self) in
   origins a (vsub b a) (Vector_length (vsub b a) / IZR 3) (normalized (vsub b a)) 3
   = Ok [mkVector 0.5 0 0; mkVector 1.5 0 0; mkVector 2.5 0 0] /\
   exists matrices rv,
     duplicate_vertices node a b donor edges faces 3 = Ok (matrices, rv) /\
     map (fun m => mul_vec m zero_vector) matrices
     = [mkVector 0.5 0 0; mkVector 1.5 0 0; mkVector 2.5 0 0]).
Proof.
  intros Hc HE HE0 direction.
  assert (Hex : midpoints (mkVector 0 0 0) (vsub (mkVector 3 0 0) (mkVector 0 0 0)) 3
                = [mkVector 0.5 0 0; mkVector 1.5 0 0; mkVector 2.5 0 0]).
  { unfold midpoints. change (Z.to_nat 3) with 3%nat. cbn [seq map].
    repeat f_equal; apply vector_eq; simpl; lra. }
  split.
  - destruct (getitem_orient_axis self) as [x Hx].
    exists (midpoints v1 direction count).
    exists (transforms self x (autorotate x direction)
              (Vector_length direction / IZR count / E)
              (midpoints v1 direction count)).
    eexists.
    split; [apply origins_spec, Hc|].
    split; [apply (duplicate_vertices_ok self v1 v2 vertices edges faces count E x
                     Hc HE HE0 Hx)|].
    split; [apply midpoints_length|].
    split; [intros k Hk; apply nth_midpoints, Hk|].
    split; [rewrite transforms_length; apply midpoints_length|].
    assert (Ho : map (fun m => mul_vec m zero_vector)
                   (transforms self x (autorotate x direction)
                      (Vector_length direction / IZR count / E)
                      (midpoints v1 direction count))
                 = midpoints v1 direction count)
      by apply (transforms_origins self (orient_axis self) x x direction _ _ Hx).
    split; [exact Ho|].
    rewrite <- Ho at 2. apply map_ext. intros m. symmetry. apply mul_vec_zero.
  - intros a b donor node. split.
    + unfold a, b. rewrite origins_spec by lia. fold (midpoints (mkVector 0 0 0)
        (vsub (mkVector 3 0 0) (mkVector 0 0 0)) 3). rewrite Hex. reflexivity.
    + assert (Hd : diameter donor (orient_axis node) = Ok 1)
        by (apply diameter_unit_donor; reflexivity).
      assert (Hx : getitem all_axes (orient_axis node) = Ok (mkVector 1 0 0))
        by reflexivity.
      eexists. eexists. split.
      * apply (duplicate_vertices_ok node a b donor edges faces 3 1 (mkVector 1 0 0));
          [lia|exact Hd|lra|exact Hx].
      * rewrite (transforms_origins node (orient_axis node) _ _ _ _ _ Hx).
        exact Hex.
Qed.

Lemma origins_are_slot_midpoints_witness :
  let self := mkNode mode_count axis_X false true in
  let donor := [mkVector 0 0 0; mkVector 1 0 0] in
  (1 <= 3)%Z /\ (1 : R) <> 0 /\
  exists os matrices rv,
    duplicate_vertices self (mkVector 0 0 0) (mkVector 3 0 0) donor [] [] 3
    = Ok (matrices, rv) /\
    List.length os = 3%nat /\
    map (fun m => mul_vec m zero_vector) matrices = os.
Proof.
  intros self donor. split; [lia|]. split; [lra|].
  destruct (origins_are_slot_midpoints self (mkVector 0 0 0) (mkVector 3 0 0)
              donor [] [] 3 1) as [[os [ms [rv [_ [H2 [H3 [_ [_ [H6 _]]]]]]]]] _].
  - lia.
  - apply diameter_unit_donor. reflexivity.
  - lra.
  - exists os, ms, rv. split; [exact H2|]. split; [exact H3|exact H6].
Defined.



(** X13. When a scale is applied (every mode but "off") and the segment has
    positive length, every copy is exactly one step long along the segment:
    projected on the segment direction, two transformed points are x_scale
    times as far apart as the original points are along the orientation axis
    (with the sign reversed for the X axis); x_scale times the donor extent
    is the step length / count, no two transformed donor vertices are
    further apart along the segment than one step, and two of them are
    exactly one step apart. *)
Theorem scaled_copies_span_one_step (self : Node) (v1 v2 : Vector)
    (vertices : list Vector) (edges : EdgeSet) (faces : FaceSet) (count : Z) (E : R) :
  (1 <= count)%Z ->
  diameter vertices (orient_axis self) = Ok E -> E <> 0 ->
  scale_off self = false ->
  let direction := vsub v2 v1 in
  0 < Vector_length direction ->
  let s := Vector_length direction / IZR count / E in
  let step := Vector_length direction / IZR count in
  exists matrices rv,
    duplicate_vertices self v1 v2 vertices edges faces count = Ok (matrices, rv) /\
    s * E = step /\
    forall k, (k < Z.to_nat count)%nat ->
      let along := fun p q =>
        dot (vsub (mul_vec (nth k matrices identity) p)
                  (mul_vec (nth k matrices identity) q))
            (normalized direction) in
      (forall p q,
         along p q
         = (if Nat.eqb (orient_axis self) 0 then -1 else 1) * s
           * (component (orient_axis self) p - component (orient_axis self) q)) /\
      (forall v w, In v vertices -> In w vertices -> Rabs (along v w) <= step) /\
      (exists v w, In v vertices /\ In w vertices /\ along v w = step).
Proof.
  intros Hc HE HE0 Hoff direction HL s step.
  destruct (getitem_orient_axis self) as [x Hx].
  assert (Hne : vertices <> []).
  { intros ->. discriminate HE. }
  destruct (diameter_is_coordinate_spread_aux vertices (orient_axis self) Hne
              (orient_axis_lt_3 self)) as [E' [HE' [HEpos [Hbound Hatt]]]].
  rewrite HE in HE'. injection HE' as <-.
  assert (Hc1 : 1 <= IZR count) by (apply IZR_le in Hc; exact Hc).
  assert (Hstep : 0 < step).
  { unfold step, Rdiv. apply Rmult_lt_0_compat; [exact HL|].
    apply Rinv_0_lt_compat. lra. }
  assert (HsE : s * E = step) by (unfold s, step; field; split; lra).
  assert (Hs : 0 < s).
  { unfold s. unfold Rdiv at 1. apply Rmult_lt_0_compat; [exact Hstep|].
    apply Rinv_0_lt_compat. lra. }
  exists (transforms self x (autorotate x direction) s (midpoints v1 direction count)).
  eexists.
  split; [apply (duplicate_vertices_ok self v1 v2 vertices edges faces count E x Hc HE HE0 Hx)|].
  split; [exact HsE|].
  intros k Hk along.
  assert (Hk' : (k < List.length (midpoints v1 direction count))%nat)
    by (rewrite midpoints_length; exact Hk).
  assert (Hal : forall p q,
            along p q
            = (if Nat.eqb (orient_axis self) 0 then -1 else 1) * s
              * (component (orient_axis self) p - component (orient_axis self) q)).
  { intros p q. unfold along.
    destruct (nth_transforms_apply self x x direction s _ k p Hk') as [Hp _].
    destruct (nth_transforms_apply self x x direction s _ k q Hk') as [Hq _].
    rewrite Hp, Hq.
    replace (vsub (vadd (nth k (midpoints v1 direction count) zero_vector)
                        (linear_image self x (autorotate x direction) s p))
                  (vadd (nth k (midpoints v1 direction count) zero_vector)
                        (linear_image self x (autorotate x direction) s q)))
      with (vsub (linear_image self x (autorotate x direction) s p)
                 (linear_image self x (autorotate x direction) s q))
      by (apply vector_eq; simpl; ring).
    rewrite <- (autorotate_axis_image (orient_axis self) x direction Hx) by lra.
    unfold linear_image. rewrite Hoff. rewrite dot_autorotate_diff.
    rewrite !mul_vec_flip.
    destruct (scale_all self).
    - rewrite !mul_vec_Scale.
      clear Hbound Hatt HE. unfold orient_axis, get_axis_idx in *.
      destruct (orient_axis_ self); injection Hx as <-;
        destruct p, q; unfold dot; simpl; ring.
    - rewrite !(mul_vec_Scale_axis (orient_axis self) x s _ Hx).
      clear Hbound Hatt HE. unfold orient_axis, get_axis_idx in *.
      destruct (orient_axis_ self); injection Hx as <-;
        destruct p, q; unfold dot; simpl; ring. }
  split; [exact Hal|]. split.
  - intros v w Hv Hw. rewrite Hal.
    pose proof (Hbound v w Hv Hw) as B1. pose proof (Hbound w v Hw Hv) as B2.
    set (t := component (orient_axis self) v - component (orient_axis self) w) in *.
    assert (B2' : - E <= t) by (unfold t; lra).
    apply Rabs_le. rewrite <- HsE.
    destruct (Nat.eqb (orient_axis self) 0); split; nra.
  - destruct Hatt as [v [w [Hv [Hw Hvw]]]].
    destruct (Nat.eqb (orient_axis self) 0) eqn:Hax.
    + exists w, v. split; [exact Hw|]. split; [exact Hv|].
      rewrite Hal, <- HsE. rewrite Hvw. ring.
    + exists v, w. split; [exact Hv|]. split; [exact Hw|].
      rewrite Hal, <- HsE. rewrite Hvw. ring.
Qed.

Lemma scaled_copies_span_one_step_witness :
  let self := mkNode mode_count axis_X false true in
  let donor := [mkVector 0 0 0; mkVector 1 0 0] in
  (1 <= 2)%Z /\ (1 : R) <> 0 /\ scale_off self = false /\
  0 < Vector_length (vsub (mkVector 3.5 0 0) (mkVector 0 0 0)) /\
  exists matrices rv,
    duplicate_vertices self (mkVector 0 0 0) (mkVector 3.5 0 0) donor [] [] 2
    = Ok (matrices, rv).
Proof.
  intros self donor.
  assert (HL : 0 < Vector_length (vsub (mkVector 3.5 0 0) (mkVector 0 0 0)))
    by (rewrite Vector_length_along_X; lra).
  split; [lia|]. split; [lra|]. split; [reflexivity|]. split; [exact HL|].
  destruct (scaled_copies_span_one_step self (mkVector 0 0 0) (mkVector 3.5 0 0)
              donor [] [] 2 1) as [matrices [rv [H _]]].
  - lia.
  - apply diameter_unit_donor. reflexivity.
  - lra.
  - reflexivity.
  - exact HL.
  - exists matrices, rv. exact H.
Defined.
